(** * NB6_Boy multi-game console (RP2040): the host runtime

    A shallow embedding of the host part of the console sketch: the tone
    sequencer, the button debouncer, the frame buffer with its serpentine
    LED addressing, and the session state machine driven by [loop].

    Conventions.
    - [uint32_t] millisecond clocks are [Z] values in [0, 2^32); every
      subtraction and addition the sketch performs on them is written with
      its wrap-around ([sub32], [add32]).
    - [uint8_t] indices into the tone queue are [nat]; the sketch reduces
      them modulo the queue size at every update, so they never reach the
      8-bit limit.
    - Calls to the hardware primitives are kept as logs inside the state
      (the buzzer log, the LED strip, the text panel log).
    - Clock reads ([millis()]) and pin reads ([digitalRead]) are inputs of
      the functions that perform them. *)

From Stdlib Require Import ZArith Lia Bool ZifyNat.
From stdpp Require Import base tactics option list strings.

Ltac Zify.zify_post_hook ::= Z.to_euclidean_division_equations.

#[global] Arguments Nat.modulo : simpl never.
#[global] Arguments Z.modulo : simpl never.
#[global] Arguments Z.pow : simpl never.

Open Scope Z_scope.

(* ===================================================================== *)
(** * Part I. The program                                                 *)
(* ===================================================================== *)

(** ** 32-bit clock arithmetic *)

Definition U32 : Z := 2 ^ 32.

(** [a - b] on [uint32_t]. *)
Definition sub32 (a b : Z) : Z := (a - b) mod U32.

(** [a + b] on [uint32_t]. *)
Definition add32 (a b : Z) : Z := (a + b) mod U32.

(** The value [millis()] returns at absolute time [t] (milliseconds since
    power-on): the hardware counter wraps every 2^32 ms. *)
Definition millis (t : Z) : Z := t mod U32.

(** ** Timing constants ([namespace Timing]) *)

Definition BTN_DEBOUNCE_MS : Z := 30.
Definition MATRIX_FRAME_MS : Z := 33.
Definition OLED_FRAME_MS : Z := 100.
Definition GAME_OVER_DELAY_MS : Z := 2000.

(** ** Sound system *)

Record ToneEvent := mkTone { freq : Z; duration : Z }.

#[global] Instance ToneEvent_inhabited : Inhabited ToneEvent :=
  populate (mkTone 0 0).

Definition TONE_QUEUE_SIZE : nat := 24.

(** One call to the buzzer primitive.  [tone(BUZZER, event.freq)] is logged
    with the whole event it was dequeued for, so that the duration that sets
    [toneEndTime] stays visible next to the frequency sent to the pin. *)
Inductive BuzzerCall :=
| Tone (ev : ToneEvent)
| NoTone.

Record Sound := mkSound {
  toneQueue : list ToneEvent;     (* ToneEvent toneQueue[TONE_QUEUE_SIZE] *)
  toneHead : nat;
  toneTail : nat;
  toneActive : bool;
  toneEndTime : Z;
  soundMuted : bool;
  buzzer : list BuzzerCall        (* calls made to tone()/noTone(), oldest first *)
}.

Definition set_toneHead (h : nat) (s : Sound) : Sound :=
  mkSound (toneQueue s) h (toneTail s) (toneActive s) (toneEndTime s)
          (soundMuted s) (buzzer s).

Definition set_toneTail (t : nat) (s : Sound) : Sound :=
  mkSound (toneQueue s) (toneHead s) t (toneActive s) (toneEndTime s)
          (soundMuted s) (buzzer s).

Definition set_toneQueue (q : list ToneEvent) (s : Sound) : Sound :=
  mkSound q (toneHead s) (toneTail s) (toneActive s) (toneEndTime s)
          (soundMuted s) (buzzer s).

Definition set_toneActive (a : bool) (s : Sound) : Sound :=
  mkSound (toneQueue s) (toneHead s) (toneTail s) a (toneEndTime s)
          (soundMuted s) (buzzer s).

Definition set_toneEndTime (t : Z) (s : Sound) : Sound :=
  mkSound (toneQueue s) (toneHead s) (toneTail s) (toneActive s) t
          (soundMuted s) (buzzer s).

Definition set_soundMuted (m : bool) (s : Sound) : Sound :=
  mkSound (toneQueue s) (toneHead s) (toneTail s) (toneActive s)
          (toneEndTime s) m (buzzer s).

(** A call to the buzzer primitive. *)
Definition buzz (c : BuzzerCall) (s : Sound) : Sound :=
  mkSound (toneQueue s) (toneHead s) (toneTail s) (toneActive s)
          (toneEndTime s) (soundMuted s) (buzzer s ++ [c]).

(** [noTone(BUZZER); toneActive = false;] *)
Definition silence (s : Sound) : Sound := set_toneActive false (buzz NoTone s).

(** Globals as initialised by the sketch; [setup] calls [noTone(BUZZER)]
    once. *)
Definition bootSound : Sound :=
  mkSound (replicate TONE_QUEUE_SIZE (mkTone 0 0)) 0 0 false 0 false [NoTone].

Definition setSoundMuted (muted : bool) (s : Sound) : Sound :=
  let s := set_soundMuted muted s in
  if soundMuted s
  then set_toneTail 0 (set_toneHead 0 (silence s))
  else s.

(** [f] and [d] are [uint16_t] values. *)
Definition enqueueTone (f d : Z) (s : Sound) : Sound :=
  if soundMuted s then s
  else
    let nextTail := ((toneTail s + 1) mod TONE_QUEUE_SIZE)%nat in
    if (nextTail =? toneHead s)%nat then s   (* queue full - discard sound *)
    else
      set_toneTail nextTail
        (set_toneQueue (<[toneTail s := mkTone f d]> (toneQueue s)) s).

Definition beepButton : Sound -> Sound := enqueueTone 1200 26.
Definition beepScore : Sound -> Sound := enqueueTone 1600 35.
Definition beepHit : Sound -> Sound := enqueueTone 240 90.

Definition beepStart (s : Sound) : Sound :=
  enqueueTone 1200 65 (enqueueTone 850 45 (enqueueTone 500 45 s)).

Definition beepLose (s : Sound) : Sound :=
  enqueueTone 430 90 (enqueueTone 700 70 (enqueueTone 1000 60 s)).

Definition beepWin (s : Sound) : Sound :=
  enqueueTone 1400 80 (enqueueTone 1050 50 (enqueueTone 800 50 s)).

Definition updateSound (now : Z) (s : Sound) : Sound :=
  if soundMuted s then
    let s := if toneActive s then silence s else s in
    set_toneHead (toneTail s) s
  else
    let s := if toneActive s && (toneEndTime s <=? now) then silence s else s in
    if negb (toneActive s) && negb (toneHead s =? toneTail s)%nat then
      let event := toneQueue s !!! toneHead s in
      let s := set_toneHead ((toneHead s + 1) mod TONE_QUEUE_SIZE)%nat s in
      let s := buzz (Tone event) s in
      let s := set_toneEndTime (add32 now (duration event)) s in
      set_toneActive true s
    else s.

(** *** Observing the sequencer *)

(** The three entry points of the sound system, as one call each. *)
Inductive SoundOp :=
| OpEnqueue (f d : Z)
| OpUpdate (now : Z)
| OpMute (muted : bool).

Definition stepSound (op : SoundOp) (s : Sound) : Sound :=
  match op with
  | OpEnqueue f d => enqueueTone f d s
  | OpUpdate now => updateSound now s
  | OpMute m => setSoundMuted m s
  end.

Fixpoint runSound (ops : list SoundOp) (s : Sound) : Sound :=
  match ops with
  | [] => s
  | op :: ops => runSound ops (stepSound op s)
  end.

Definition isMute (op : SoundOp) : bool :=
  match op with OpMute _ => true | _ => false end.

(** Number of slots in use, as read off the two indices. *)
Definition occupancy (s : Sound) : nat :=
  ((toneTail s + TONE_QUEUE_SIZE - toneHead s) mod TONE_QUEUE_SIZE)%nat.

(** [n] consecutive slots of the ring starting at slot [h]. *)
Fixpoint slots (q : list ToneEvent) (h n : nat) : list ToneEvent :=
  match n with
  | O => []
  | S n => (q !!! h) :: slots q ((h + 1) mod TONE_QUEUE_SIZE)%nat n
  end.

(** The queued events, oldest first. *)
Definition pending (s : Sound) : list ToneEvent :=
  slots (toneQueue s) (toneHead s) (occupancy s).

(** An [enqueueTone] call accepted its event iff it advanced the tail. *)
Definition acceptedBy (op : SoundOp) (s : Sound) : list ToneEvent :=
  match op with
  | OpEnqueue f d =>
      if (toneTail (enqueueTone f d s) =? toneTail s)%nat then []
      else [mkTone f d]
  | _ => []
  end.

(** The events accepted along a run, in call order. *)
Fixpoint accepted (ops : list SoundOp) (s : Sound) : list ToneEvent :=
  match ops with
  | [] => []
  | op :: ops => acceptedBy op s ++ accepted ops (stepSound op s)
  end.

(** The buzzer calls made during a run. *)
Definition emitted (ops : list SoundOp) (s : Sound) : list BuzzerCall :=
  drop (length (buzzer s)) (buzzer (runSound ops s)).

(** The events started by a sequence of buzzer calls. *)
Fixpoint started (calls : list BuzzerCall) : list ToneEvent :=
  match calls with
  | [] => []
  | Tone ev :: calls => ev :: started calls
  | NoTone :: calls => started calls
  end.

(** Is the buzzer sounding after these calls, given whether it was before? *)
Fixpoint sounding (on : bool) (calls : list BuzzerCall) : bool :=
  match calls with
  | [] => on
  | Tone _ :: calls => sounding true calls
  | NoTone :: calls => sounding false calls
  end.

(** No [tone()] call is made while the buzzer is sounding. *)
Fixpoint oneAtATime (on : bool) (calls : list BuzzerCall) : Prop :=
  match calls with
  | [] => True
  | Tone _ :: calls => on = false /\ oneAtATime true calls
  | NoTone :: calls => oneAtATime false calls
  end.

(** Representation invariant of the sequencer: both indices are slots of
    the array, and [toneActive] tells whether the buzzer is sounding. *)
Record SoundOk (s : Sound) : Prop := {
  ok_queue : length (toneQueue s) = TONE_QUEUE_SIZE;
  ok_head : (toneHead s < TONE_QUEUE_SIZE)%nat;
  ok_tail : (toneTail s < TONE_QUEUE_SIZE)%nat;
  ok_active : toneActive s = sounding false (buzzer s)
}.

(** ** Button system *)

(** The board pins the sketch names ([D0] ... [D10] of the XIAO RP2040). *)
Inductive Pin := D0 | D1 | D2 | D3 | D4 | D5 | D6 | D7 | D9 | D10.

Definition MATRIX_PIN := D10.
Definition BTN_UP := D3.
Definition BTN_DOWN := D9.
Definition BTN_LEFT := D2.
Definition BTN_RIGHT := D7.
Definition BTN_PAUSE := D6.
Definition BUZZER := D0.
Definition GAME_SELECTOR_BTN := D1.

#[global] Instance Pin_eq_dec : EqDecision Pin.
Proof. solve_decision. Defined.

(** What [digitalRead] returns. *)
Inductive Level := LOW | HIGH.

Definition isLow (l : Level) : bool :=
  match l with LOW => true | HIGH => false end.

Inductive ButtonId := B_UP | B_DOWN | B_LEFT | B_RIGHT | B_PAUSE | B_SELECT.

#[global] Instance ButtonId_eq_dec : EqDecision ButtonId.
Proof. solve_decision. Defined.

Definition BUTTON_PINS (id : ButtonId) : Pin :=
  match id with
  | B_UP => BTN_UP
  | B_DOWN => BTN_DOWN
  | B_LEFT => BTN_LEFT
  | B_RIGHT => BTN_RIGHT
  | B_PAUSE => BTN_PAUSE
  | B_SELECT => GAME_SELECTOR_BTN
  end.

Record Button := mkButton {
  pin : Pin;
  stable : bool;
  last : bool;
  press : bool;
  release : bool;
  changedAt : Z
}.

(** [Button buttons[BUTTON_COUNT]], indexed by [ButtonId]. *)
Definition Buttons := ButtonId -> Button.

(** [initButtons]: [rd] is what [digitalRead] returns, [clock id] what
    [millis()] returns when the entry of [id] is filled in. *)
Definition initButtons (rd : Pin -> Level) (clock : ButtonId -> Z) : Buttons :=
  fun id =>
    let pressed := isLow (rd (BUTTON_PINS id)) in
    mkButton (BUTTON_PINS id) pressed pressed false false (clock id).

Definition clearButtonEdges (bs : Buttons) : Buttons :=
  fun id =>
    let b := bs id in
    mkButton (pin b) (stable b) (last b) false false (changedAt b).

(** The body of the loop of [updateButtons], for the raw level [raw] read
    from the pin of [b]. *)
Definition debounce (now : Z) (raw : bool) (b : Button) : Button :=
  let b :=
    if negb (eqb raw (last b))
    then mkButton (pin b) (stable b) raw (press b) (release b) now
    else b in
  if (BTN_DEBOUNCE_MS <=? sub32 now (changedAt b)) && negb (eqb raw (stable b))
  then
    if raw
    then mkButton (pin b) raw (last b) true (release b) (changedAt b)
    else mkButton (pin b) raw (last b) (press b) true (changedAt b)
  else b.

Definition updateButtons (now : Z) (rd : Pin -> Level) (bs : Buttons) : Buttons :=
  fun id => let b := bs id in debounce now (isLow (rd (pin b))) b.

(** [takePress]: the result and the buttons afterwards. *)
Definition takePress (id : ButtonId) (bs : Buttons) : bool * Buttons :=
  if negb (press (bs id)) then (false, bs)
  else
    (true,
     fun j =>
       if decide (j = id)
       then let b := bs j in
            mkButton (pin b) (stable b) (last b) false (release b) (changedAt b)
       else bs j).

Definition isDown (id : ButtonId) (bs : Buttons) : bool := stable (bs id).

(** *** Observing the debouncer *)

(** One tick as the buttons see it: the absolute time of the tick in
    milliseconds and the level of every pin at that time. *)
Definition Sample : Type := Z * (Pin -> Level).

Fixpoint sampleButtons (ss : list Sample) (bs : Buttons) : Buttons :=
  match ss with
  | [] => bs
  | (t, rd) :: ss => sampleButtons ss (updateButtons (millis t) rd bs)
  end.

(** The raw level of one pin at each tick ([true] for a closed contact). *)
Definition rawOf (p : Pin) (ss : list Sample) : list (Z * bool) :=
  map (fun '(t, rd) => (t, isLow (rd p))) ss.

(** The times of the raw level transitions in a sequence of readings that
    follows a reading of [lvl]. *)
Fixpoint transitions (lvl : bool) (raws : list (Z * bool)) : list Z :=
  match raws with
  | [] => []
  | (t, r) :: raws =>
      if eqb r lvl then transitions lvl raws else t :: transitions r raws
  end.

(** The raw level after a sequence of readings that follows a reading of
    [lvl]. *)
Fixpoint levelAfter (lvl : bool) (raws : list (Z * bool)) : bool :=
  match raws with
  | [] => lvl
  | (_, r) :: raws => levelAfter r raws
  end.

(** Consecutive times are less than [w] apart. *)
Fixpoint spacedUnder (w : Z) (ts : list Z) : Prop :=
  match ts with
  | t1 :: (t2 :: _) as ts' => t2 - t1 < w /\ spacedUnder w ts'
  | _ => True
  end.

(** Times do not go backwards. *)
Fixpoint ascending (ts : list Z) : Prop :=
  match ts with
  | t1 :: (t2 :: _) as ts' => t1 <= t2 /\ ascending ts'
  | _ => True
  end.

(** The readings end with a transition: the observation stops at the last
    bounce. *)
Definition endsInTransition (lvl : bool) (raws : list (Z * bool)) : Prop :=
  exists front t r,
    raws = front ++ [(t, r)] /\ r <> levelAfter lvl front.

(** One button fed with a sequence of timed raw readings. *)
Fixpoint feed (raws : list (Z * bool)) (b : Button) : Button :=
  match raws with
  | [] => b
  | (t, r) :: raws => feed raws (debounce (millis t) r b)
  end.

(** Every reading that repeats the previous level is taken less than the
    debounce window after the latest transition [since], if there was one. *)
Fixpoint calm (since : option Z) (lvl : bool) (raws : list (Z * bool)) : Prop :=
  match raws with
  | [] => True
  | (t, r) :: raws =>
      if eqb r lvl
      then match since with
           | Some t0 => t0 <= t < t0 + BTN_DEBOUNCE_MS
           | None => True
           end /\ calm since lvl raws
      else calm (Some t) r raws
  end.

(** The time of the latest transition, if any, as a list. *)
Definition sinceList (since : option Z) : list Z :=
  match since with Some t0 => [t0] | None => [] end.

(** ** Frame buffer and LED matrix *)

Definition MATRIX_W : Z := 8.
Definition MATRIX_H : Z := 8.
Definition MATRIX_COUNT : nat := 64.

(** [static_cast<uint8_t>]. *)
Definition u8 (z : Z) : Z := z mod 256.

(** Converts (x,y) grid coordinates to the physical LED index. *)
Definition ledIndex (x y : Z) : Z :=
  if y mod 2 =? 0
  then u8 (y * MATRIX_W + x)
  else u8 (y * MATRIX_W + (MATRIX_W - 1 - x)).

(** [for (uint8_t i = 0; i < n; ++i) body(i)] over a state [A]. *)
Definition forUpTo {A : Type} (n : nat) (body : nat -> A -> A) (a : A) : A :=
  fold_left (fun a i => body i a) (seq 0 n) a.

Definition clearFrame (color : Z) (fb : list Z) : list Z :=
  forUpTo MATRIX_COUNT (fun i fb => <[i := color]> fb) fb.

(** [x] and [y] are [int8_t]; inside the grid the casts to [uint8_t] keep
    their values. *)
Definition setPixel (x y : Z) (color : Z) (fb : list Z) : list Z :=
  if (x <? 0) || (MATRIX_W <=? x) || (y <? 0) || (MATRIX_H <=? y)
  then fb
  else <[Z.to_nat (ledIndex (u8 x) (u8 y)) := color]> fb.

(** The NeoPixel strip: the colours handed over with [setPixelColor] and
    the colours the LEDs show since the last [show()]. *)
Record NeoPixel := mkNeoPixel { staged : list Z; lit : list Z }.

Definition showFrame (fb : list Z) (m : NeoPixel) : NeoPixel :=
  let st := forUpTo MATRIX_COUNT (fun i st => <[i := fb !!! i]> st) (staged m) in
  mkNeoPixel st st.

(** ** Session state *)

Inductive SystemState := STATE_MENU | STATE_PLAYING | STATE_GAME_OVER.

#[global] Instance SystemState_eq_dec : EqDecision SystemState.
Proof. solve_decision. Defined.

Inductive GameId :=
| GAME_SNAKE_WALL | GAME_SNAKE_WRAP | GAME_TETRIS | GAME_FLAPPY_EASY
| GAME_FLAPPY_HARD | GAME_ASTEROIDS_HARD | GAME_PACMAN_EASY | GAME_PACMAN_HARD
| GAME_SPACE_SHOOTER | GAME_BREAKOUT | GAME_TTT_AI | GAME_TTT_2P | GAME_PONG
| GAME_TUG | GAME_CHECKERS_AI | GAME_CHECKERS_2P | GAME_MINESWEEPER | GAME_DINO.

#[global] Instance GameId_eq_dec : EqDecision GameId.
Proof. solve_decision. Defined.

Definition GAME_COUNT : Z := 18.

(** [static_cast<GameId>(menuIndex)].  The menu keeps [menuIndex] inside
    [0, GAME_COUNT); no enumerator stands for a value outside, and the
    first one is returned there. *)
Definition gameOfIndex (i : Z) : GameId :=
  match i with
  | 0 => GAME_SNAKE_WALL | 1 => GAME_SNAKE_WRAP | 2 => GAME_TETRIS
  | 3 => GAME_FLAPPY_EASY | 4 => GAME_FLAPPY_HARD | 5 => GAME_ASTEROIDS_HARD
  | 6 => GAME_PACMAN_EASY | 7 => GAME_PACMAN_HARD | 8 => GAME_SPACE_SHOOTER
  | 9 => GAME_BREAKOUT | 10 => GAME_TTT_AI | 11 => GAME_TTT_2P | 12 => GAME_PONG
  | 13 => GAME_TUG | 14 => GAME_CHECKERS_AI | 15 => GAME_CHECKERS_2P
  | 16 => GAME_MINESWEEPER | 17 => GAME_DINO
  | _ => GAME_SNAKE_WALL
  end.

(** Which of the three text screens was drawn; the text itself is not
    kept. *)
Inductive OledDraw := MenuOLED | PlayingOLED | GameOverOLED.

(** The game implementations, one per member of the union [GameState]. *)
Inductive Module :=
| Snake | Tetris | FlappyEasy | FlappyHard | AsteroidsHard | PacEasy | Pacman
| SpaceShooter | Breakout | TicTacToe | Pong | TugOfWar | Checkers
| Minesweeper | Dino.

(** What the code of a game module does to the rest of the sketch while it
    updates: it consumes press edges, queues tones, writes the score,
    rewrites its own state, and ends the round.  The update functions of
    the sketch write no other global: the pause flag is written only in the
    pause handling that heads six of them, which is modelled with them
    below, and the session state, the high scores and the tone queue are
    reached through [finishGame] and [enqueueTone] alone. *)
Inductive ModuleCall (G : Type) :=
| MTakePress (id : ButtonId)
| MEnqueueTone (f d : Z)
| MSetScore (v : Z)
| MSetState (g : G)
| MFinishGame (clk : Z) (win : bool) (message : option string).

Arguments MTakePress {G} id.
Arguments MEnqueueTone {G} f d.
Arguments MSetScore {G} v.
Arguments MSetState {G} g.
Arguments MFinishGame {G} clk win message.

(** What the code of a game module does while it draws. *)
Inductive DrawCall :=
| DClear (color : Z)
| DPixel (x y color : Z).

Section Host.

(** The state the game modules keep for themselves. *)
Context {G : Type}.

Record World := mkWorld {
  buttons : Buttons   (* Button buttons[BUTTON_COUNT] *);
  sound : Sound   (* the globals of the sound system, and the buzzer *);
  systemState : SystemState;
  currentGame : GameId;
  menuIndex : Z;
  score : Z;
  highScore : GameId -> Z   (* int16_t highScore[GAME_COUNT] *);
  lastWin : bool;
  lastMsg : string   (* char lastMsg[24] *);
  gamePaused : bool;
  menuMuteComboLatched : bool;
  gameOverStartTime : Z;
  frameBuffer : list Z   (* uint32_t frameBuffer[MATRIX_COUNT] *);
  lastMatrixMs : Z;
  lastOledMs : Z;
  matrix : NeoPixel   (* the LED strip *);
  oled : list OledDraw   (* the text panel *);
  gameState : G   (* the union GameState, and what else the modules keep *)
}.

Definition set_buttons (v : Buttons) (w : World) : World :=
  mkWorld v (sound w) (systemState w) (currentGame w) (menuIndex w) (score
    w) (highScore w) (lastWin w) (lastMsg w) (gamePaused w)
    (menuMuteComboLatched w) (gameOverStartTime w) (frameBuffer w)
    (lastMatrixMs w) (lastOledMs w) (matrix w) (oled w) (gameState w).

Definition set_sound (v : Sound) (w : World) : World :=
  mkWorld (buttons w) v (systemState w) (currentGame w) (menuIndex w) (score
    w) (highScore w) (lastWin w) (lastMsg w) (gamePaused w)
    (menuMuteComboLatched w) (gameOverStartTime w) (frameBuffer w)
    (lastMatrixMs w) (lastOledMs w) (matrix w) (oled w) (gameState w).

Definition set_systemState (v : SystemState) (w : World) : World :=
  mkWorld (buttons w) (sound w) v (currentGame w) (menuIndex w) (score w)
    (highScore w) (lastWin w) (lastMsg w) (gamePaused w)
    (menuMuteComboLatched w) (gameOverStartTime w) (frameBuffer w)
    (lastMatrixMs w) (lastOledMs w) (matrix w) (oled w) (gameState w).

Definition set_currentGame (v : GameId) (w : World) : World :=
  mkWorld (buttons w) (sound w) (systemState w) v (menuIndex w) (score w)
    (highScore w) (lastWin w) (lastMsg w) (gamePaused w)
    (menuMuteComboLatched w) (gameOverStartTime w) (frameBuffer w)
    (lastMatrixMs w) (lastOledMs w) (matrix w) (oled w) (gameState w).

Definition set_menuIndex (v : Z) (w : World) : World :=
  mkWorld (buttons w) (sound w) (systemState w) (currentGame w) v (score w)
    (highScore w) (lastWin w) (lastMsg w) (gamePaused w)
    (menuMuteComboLatched w) (gameOverStartTime w) (frameBuffer w)
    (lastMatrixMs w) (lastOledMs w) (matrix w) (oled w) (gameState w).

Definition set_score (v : Z) (w : World) : World :=
  mkWorld (buttons w) (sound w) (systemState w) (currentGame w) (menuIndex
    w) v (highScore w) (lastWin w) (lastMsg w) (gamePaused w)
    (menuMuteComboLatched w) (gameOverStartTime w) (frameBuffer w)
    (lastMatrixMs w) (lastOledMs w) (matrix w) (oled w) (gameState w).

Definition set_highScore (v : GameId -> Z) (w : World) : World :=
  mkWorld (buttons w) (sound w) (systemState w) (currentGame w) (menuIndex
    w) (score w) v (lastWin w) (lastMsg w) (gamePaused w)
    (menuMuteComboLatched w) (gameOverStartTime w) (frameBuffer w)
    (lastMatrixMs w) (lastOledMs w) (matrix w) (oled w) (gameState w).

Definition set_lastWin (v : bool) (w : World) : World :=
  mkWorld (buttons w) (sound w) (systemState w) (currentGame w) (menuIndex
    w) (score w) (highScore w) v (lastMsg w) (gamePaused w)
    (menuMuteComboLatched w) (gameOverStartTime w) (frameBuffer w)
    (lastMatrixMs w) (lastOledMs w) (matrix w) (oled w) (gameState w).

Definition set_lastMsg (v : string) (w : World) : World :=
  mkWorld (buttons w) (sound w) (systemState w) (currentGame w) (menuIndex
    w) (score w) (highScore w) (lastWin w) v (gamePaused w)
    (menuMuteComboLatched w) (gameOverStartTime w) (frameBuffer w)
    (lastMatrixMs w) (lastOledMs w) (matrix w) (oled w) (gameState w).

Definition set_gamePaused (v : bool) (w : World) : World :=
  mkWorld (buttons w) (sound w) (systemState w) (currentGame w) (menuIndex
    w) (score w) (highScore w) (lastWin w) (lastMsg w) v
    (menuMuteComboLatched w) (gameOverStartTime w) (frameBuffer w)
    (lastMatrixMs w) (lastOledMs w) (matrix w) (oled w) (gameState w).

Definition set_menuMuteComboLatched (v : bool) (w : World) : World :=
  mkWorld (buttons w) (sound w) (systemState w) (currentGame w) (menuIndex
    w) (score w) (highScore w) (lastWin w) (lastMsg w) (gamePaused w) v
    (gameOverStartTime w) (frameBuffer w) (lastMatrixMs w) (lastOledMs w)
    (matrix w) (oled w) (gameState w).

Definition set_gameOverStartTime (v : Z) (w : World) : World :=
  mkWorld (buttons w) (sound w) (systemState w) (currentGame w) (menuIndex
    w) (score w) (highScore w) (lastWin w) (lastMsg w) (gamePaused w)
    (menuMuteComboLatched w) v (frameBuffer w) (lastMatrixMs w) (lastOledMs
    w) (matrix w) (oled w) (gameState w).

Definition set_frameBuffer (v : list Z) (w : World) : World :=
  mkWorld (buttons w) (sound w) (systemState w) (currentGame w) (menuIndex
    w) (score w) (highScore w) (lastWin w) (lastMsg w) (gamePaused w)
    (menuMuteComboLatched w) (gameOverStartTime w) v (lastMatrixMs w)
    (lastOledMs w) (matrix w) (oled w) (gameState w).

Definition set_lastMatrixMs (v : Z) (w : World) : World :=
  mkWorld (buttons w) (sound w) (systemState w) (currentGame w) (menuIndex
    w) (score w) (highScore w) (lastWin w) (lastMsg w) (gamePaused w)
    (menuMuteComboLatched w) (gameOverStartTime w) (frameBuffer w) v
    (lastOledMs w) (matrix w) (oled w) (gameState w).

Definition set_lastOledMs (v : Z) (w : World) : World :=
  mkWorld (buttons w) (sound w) (systemState w) (currentGame w) (menuIndex
    w) (score w) (highScore w) (lastWin w) (lastMsg w) (gamePaused w)
    (menuMuteComboLatched w) (gameOverStartTime w) (frameBuffer w)
    (lastMatrixMs w) v (matrix w) (oled w) (gameState w).

Definition set_matrix (v : NeoPixel) (w : World) : World :=
  mkWorld (buttons w) (sound w) (systemState w) (currentGame w) (menuIndex
    w) (score w) (highScore w) (lastWin w) (lastMsg w) (gamePaused w)
    (menuMuteComboLatched w) (gameOverStartTime w) (frameBuffer w)
    (lastMatrixMs w) (lastOledMs w) v (oled w) (gameState w).

Definition set_oled (v : list OledDraw) (w : World) : World :=
  mkWorld (buttons w) (sound w) (systemState w) (currentGame w) (menuIndex
    w) (score w) (highScore w) (lastWin w) (lastMsg w) (gamePaused w)
    (menuMuteComboLatched w) (gameOverStartTime w) (frameBuffer w)
    (lastMatrixMs w) (lastOledMs w) (matrix w) v (gameState w).

Definition set_gameState (v : G) (w : World) : World :=
  mkWorld (buttons w) (sound w) (systemState w) (currentGame w) (menuIndex
    w) (score w) (highScore w) (lastWin w) (lastMsg w) (gamePaused w)
    (menuMuteComboLatched w) (gameOverStartTime w) (frameBuffer w)
    (lastMatrixMs w) (lastOledMs w) (matrix w) (oled w) v.

(** Code outside the host.  [Color] is the colour packing of the NeoPixel
    library.  The game modules are given by what they do: [moduleInit id clk]
    is the effect of the init function of game [id] on the module state when
    [millis()] reads [clk]; [moduleLogic m now w] are the calls the update
    function of module [m] makes, in order, when it runs from [w] (for the
    modules that can pause: after their pause handling); [moduleDraw m w]
    are the calls of its draw function. *)
Record Collaborators := mkCollaborators {
  Color : Z -> Z -> Z -> Z;
  moduleInit : GameId -> Z -> G -> G;
  moduleLogic : Module -> Z -> World -> list (ModuleCall G);
  moduleDraw : Module -> World -> list DrawCall
}.

(** A sound function applied to the sound globals. *)
Definition beep (f : Sound -> Sound) (w : World) : World :=
  set_sound (f (sound w)) w.

(** [takePress(id)] on the buttons of [w]. *)
Definition pressed (id : ButtonId) (w : World) : bool * World :=
  let '(p, bs) := takePress id (buttons w) in (p, set_buttons bs w).

(** [strncpy(lastMsg, m, sizeof(lastMsg) - 1); lastMsg[23] = 0]. *)
Definition clipMsg (m : string) : string := String.substring 0 23 m.

Definition returnToMenu (w : World) : World :=
  let w := set_systemState STATE_MENU w in
  let w := set_gamePaused false w in
  let w := set_menuMuteComboLatched false w in
  set_buttons (clearButtonEdges (buttons w)) w.

(** [clk] is what [millis()] returns inside. *)
Definition finishGame (clk : Z) (win : bool) (message : option string)
    (w : World) : World :=
  if negb (bool_decide (systemState w = STATE_PLAYING)) then w
  else
    let w :=
      if score w >? highScore w (currentGame w)
      then set_highScore
             (fun id => if decide (id = currentGame w) then score w
                        else highScore w id) w
      else w in
    let w := set_lastWin win w in
    let w :=
      match message with
      | Some m => set_lastMsg (clipMsg m) w
      | None => set_lastMsg (clipMsg (if win then "Win" else "Game over")) w
      end in
    let w := set_systemState STATE_GAME_OVER w in
    let w := set_gameOverStartTime clk w in
    let w := set_buttons (clearButtonEdges (buttons w)) w in
    if win then beep beepWin w else beep beepLose w.

Section WithCollaborators.

Variable C : Collaborators.

(** Five of the init functions end with [score = 0]; all of them write the
    module state only. *)
Definition initGame (id : GameId) (clk : Z) (w : World) : World :=
  let w := set_gameState (moduleInit C id clk (gameState w)) w in
  match id with
  | GAME_PONG | GAME_TUG | GAME_CHECKERS_AI | GAME_CHECKERS_2P
  | GAME_MINESWEEPER | GAME_DINO => set_score 0 w
  | _ => w
  end.

Definition startGame (id : GameId) (clk : Z) (w : World) : World :=
  let w := set_currentGame id w in
  let w := set_score 0 w in
  let w := set_lastWin false w in
  let w := set_gamePaused false w in
  let w := set_menuMuteComboLatched false w in
  let w := set_lastMsg (clipMsg "Game over") w in
  let w := set_systemState STATE_PLAYING w in
  let w := set_buttons (clearButtonEdges (buttons w)) w in
  let w := initGame id clk w in
  beep beepStart w.

(** *** The game modules *)

Definition moduleCall (c : ModuleCall G) (w : World) : World :=
  match c with
  | MTakePress id => snd (pressed id w)
  | MEnqueueTone f d => beep (enqueueTone f d) w
  | MSetScore v => set_score v w
  | MSetState g => set_gameState g w
  | MFinishGame clk win message => finishGame clk win message w
  end.

Definition runCalls (cs : list (ModuleCall G)) (w : World) : World :=
  fold_left (fun w c => moduleCall c w) cs w.

(** The game-specific code of module [m], run from [w]. *)
Definition play (m : Module) (now : Z) (w : World) : World :=
  runCalls (moduleLogic C m now w) w.

(** [gamePaused = !gamePaused; beepButton();] *)
Definition togglePause (w : World) : World :=
  beep beepButton (set_gamePaused (negb (gamePaused w)) w).

Definition snakeUpdate (now : Z) (w : World) : World :=
  let '(p, w) := pressed B_PAUSE w in
  let w := if p then togglePause w else w in
  if gamePaused w then w else play Snake now w.

Definition dinoUpdate (now : Z) (w : World) : World :=
  let '(p, w) := pressed B_PAUSE w in
  let w := if p then togglePause w else w in
  if gamePaused w then w else play Dino now w.

Definition pacEasyUpdate (now : Z) (w : World) : World :=
  let '(p, w) := pressed B_PAUSE w in
  if p then togglePause w
  else if gamePaused w then w else play PacEasy now w.

Definition pacmanUpdate (now : Z) (w : World) : World :=
  let '(p, w) := pressed B_PAUSE w in
  if p then togglePause w
  else if gamePaused w then w else play Pacman now w.

Definition breakoutUpdate (now : Z) (w : World) : World :=
  let '(p, w) := pressed B_PAUSE w in
  if p then togglePause w
  else if gamePaused w then w else play Breakout now w.

Definition pongUpdate (now : Z) (w : World) : World :=
  let '(p, w) := pressed B_PAUSE w in
  if p then togglePause w
  else if gamePaused w then w else play Pong now w.

Definition tetrisUpdate : Z -> World -> World := play Tetris.
Definition flappyEasyUpdate : Z -> World -> World := play FlappyEasy.
Definition flappyHardUpdate : Z -> World -> World := play FlappyHard.
Definition asteroidsHardUpdate : Z -> World -> World := play AsteroidsHard.
Definition spaceShooterUpdate : Z -> World -> World := play SpaceShooter.
Definition tttUpdate : Z -> World -> World := play TicTacToe.
Definition tugUpdate : Z -> World -> World := play TugOfWar.
Definition checkersUpdate : Z -> World -> World := play Checkers.
Definition minesweeperUpdate : Z -> World -> World := play Minesweeper.

Definition updateGame (id : GameId) (now : Z) (w : World) : World :=
  match id with
  | GAME_SNAKE_WALL | GAME_SNAKE_WRAP => snakeUpdate now w
  | GAME_TETRIS => tetrisUpdate now w
  | GAME_FLAPPY_EASY => flappyEasyUpdate now w
  | GAME_FLAPPY_HARD => flappyHardUpdate now w
  | GAME_ASTEROIDS_HARD => asteroidsHardUpdate now w
  | GAME_PACMAN_EASY => pacEasyUpdate now w
  | GAME_PACMAN_HARD => pacmanUpdate now w
  | GAME_SPACE_SHOOTER => spaceShooterUpdate now w
  | GAME_BREAKOUT => breakoutUpdate now w
  | GAME_TTT_AI | GAME_TTT_2P => tttUpdate now w
  | GAME_PONG => pongUpdate now w
  | GAME_TUG => tugUpdate now w
  | GAME_CHECKERS_AI | GAME_CHECKERS_2P => checkersUpdate now w
  | GAME_MINESWEEPER => minesweeperUpdate now w
  | GAME_DINO => dinoUpdate now w
  end.

(** *** Drawing *)

Definition drawCall (c : DrawCall) (fb : list Z) : list Z :=
  match c with
  | DClear color => clearFrame color fb
  | DPixel x y color => setPixel x y color fb
  end.

(** The draw function of module [m]. *)
Definition paint (m : Module) (w : World) : World :=
  set_frameBuffer (fold_left (fun fb c => drawCall c fb) (moduleDraw C m w)
                             (frameBuffer w)) w.

Definition drawGame (id : GameId) (w : World) : World :=
  match id with
  | GAME_SNAKE_WALL | GAME_SNAKE_WRAP => paint Snake w
  | GAME_TETRIS => paint Tetris w
  | GAME_FLAPPY_EASY => paint FlappyEasy w
  | GAME_FLAPPY_HARD => paint FlappyHard w
  | GAME_ASTEROIDS_HARD => paint AsteroidsHard w
  | GAME_PACMAN_EASY => paint PacEasy w
  | GAME_PACMAN_HARD => paint Pacman w
  | GAME_SPACE_SHOOTER => paint SpaceShooter w
  | GAME_BREAKOUT => paint Breakout w
  | GAME_TTT_AI | GAME_TTT_2P => paint TicTacToe w
  | GAME_PONG => paint Pong w
  | GAME_TUG => paint TugOfWar w
  | GAME_CHECKERS_AI | GAME_CHECKERS_2P => paint Checkers w
  | GAME_MINESWEEPER => paint Minesweeper w
  | GAME_DINO => paint Dino w
  end.

(** Two nested loops over the grid, rows outside. *)
Definition forGrid (body : Z -> Z -> list Z -> list Z) (fb : list Z) : list Z :=
  forUpTo 8 (fun y fb => forUpTo 8 (fun x fb => body (Z.of_nat x) (Z.of_nat y) fb) fb) fb.

Definition drawFlashingPauseBorder (now : Z) (w : World) : World :=
  if negb (gamePaused w) then w
  else if negb ((now / 200) mod 2 =? 0) then w
  else
    let borderColor := Color C 50 50 0 in
    set_frameBuffer
      (forUpTo 8
         (fun i fb =>
            let i := Z.of_nat i in
            setPixel i 7 borderColor
              (setPixel i 0 borderColor
                 (setPixel 7 i borderColor (setPixel 0 i borderColor fb))))
         (frameBuffer w)) w.

Definition drawMenuMatrix (now : Z) (w : World) : World :=
  let sweep := u8 ((now / 140) mod MATRIX_W) in
  set_frameBuffer
    (forGrid
       (fun x y fb =>
          let r := u8 (Z.land (add32 (x * 20) (now / 9)) 63) in
          let g := u8 (Z.land (add32 (y * 18) (now / 13)) 63) in
          let b := u8 (Z.land (add32 (x * 9 + y * 11) (now / 17)) 63) in
          let r := if x =? sweep then 70 else r in
          setPixel x y (Color C (r / 2) (g / 2) (b / 2)) fb)
       (clearFrame 0 (frameBuffer w))) w.

Definition drawGameOverMatrix (now : Z) (w : World) : World :=
  let pattern := (now / 240) mod 2 =? 0 in
  set_frameBuffer
    (forGrid
       (fun x y fb =>
          if negb (eqb ((x + y) mod 2 =? 0) pattern) then fb
          else setPixel x y (if lastWin w then Color C 0 45 0 else Color C 55 0 0) fb)
       (clearFrame 0 (frameBuffer w))) w.

Definition drawMenuOLED (w : World) : World := set_oled (oled w ++ [MenuOLED]) w.
Definition drawPlayingOLED (w : World) : World := set_oled (oled w ++ [PlayingOLED]) w.
Definition drawGameOverOLED (w : World) : World := set_oled (oled w ++ [GameOverOLED]) w.

(** *** The main loop *)

(** SELECT always returns to the menu, except when already in the menu. *)
Definition globalInput (w : World) : World :=
  let '(p, w) := pressed B_SELECT w in
  if p && negb (bool_decide (systemState w = STATE_MENU))
  then returnToMenu (beep beepButton w)
  else w.

(** The head of the menu branch: LEFT and RIGHT held together toggle the
    mute flag, once per hold. *)
Definition menuMuteCombo (w : World) : World :=
  let muteComboDown := isDown B_LEFT (buttons w) && isDown B_RIGHT (buttons w) in
  let w :=
    if muteComboDown && negb (menuMuteComboLatched w) then
      let w := beep (setSoundMuted (negb (soundMuted (sound w)))) w in
      let w := if negb (soundMuted (sound w)) then beep beepButton w else w in
      let w := set_menuMuteComboLatched true w in
      set_buttons (clearButtonEdges (buttons w)) w
    else w in
  if negb muteComboDown then set_menuMuteComboLatched false w else w.

Definition menuInput (clk : Z) (w : World) : World :=
  let w := menuMuteCombo w in
  let '(up, w) := pressed B_UP w in
  let w :=
    if up
    then beep beepButton
           (set_menuIndex (Z.rem (menuIndex w + GAME_COUNT - 1) GAME_COUNT) w)
    else w in
  let '(down, w) := pressed B_DOWN w in
  let w :=
    if down
    then beep beepButton (set_menuIndex (Z.rem (menuIndex w + 1) GAME_COUNT) w)
    else w in
  let '(go, w) := pressed B_PAUSE w in
  if go then startGame (gameOfIndex (menuIndex w)) clk (beep beepButton w)
  else w.

(** Auto-return to the menu after the delay, or on PAUSE or SELECT; the
    three tests are tried in this order and the first that holds ends the
    evaluation. *)
Definition gameOverInput (now : Z) (w : World) : World :=
  let leave (w : World) := returnToMenu (beep beepButton w) in
  if GAME_OVER_DELAY_MS <=? sub32 now (gameOverStartTime w) then leave w
  else
    let '(p, w) := pressed B_PAUSE w in
    if p then leave w
    else
      let '(q, w) := pressed B_SELECT w in
      if q then leave w else w.

Definition stateInput (now clk : Z) (w : World) : World :=
  match systemState w with
  | STATE_MENU => menuInput clk w
  | STATE_PLAYING => updateGame (currentGame w) now w
  | STATE_GAME_OVER => gameOverInput now w
  end.

Definition renderMatrix (now : Z) (w : World) : World :=
  if MATRIX_FRAME_MS <=? sub32 now (lastMatrixMs w) then
    let w := set_lastMatrixMs now w in
    let w :=
      match systemState w with
      | STATE_MENU => drawMenuMatrix now w
      | STATE_PLAYING => drawFlashingPauseBorder now (drawGame (currentGame w) w)
      | STATE_GAME_OVER => drawGameOverMatrix now w
      end in
    set_matrix (showFrame (frameBuffer w) (matrix w)) w
  else w.

Definition renderOLED (now : Z) (w : World) : World :=
  if OLED_FRAME_MS <=? sub32 now (lastOledMs w) then
    let w := set_lastOledMs now w in
    match systemState w with
    | STATE_MENU => drawMenuOLED w
    | STATE_PLAYING => drawPlayingOLED w
    | STATE_GAME_OVER => drawGameOverOLED w
    end
  else w.

(** One iteration of [loop]: [now] is what [millis()] returns at its start,
    [rd] what [digitalRead] returns, [clk] what [millis()] returns to code
    that reads the clock again later in the iteration. *)
Definition loop (now : Z) (rd : Pin -> Level) (clk : Z) (w : World) : World :=
  let w := set_buttons (updateButtons now rd (buttons w)) w in
  let w := globalInput w in
  let w := stateInput now clk w in
  let w := beep (updateSound now) w in
  let w := renderMatrix now w in
  renderOLED now w.

(** *** Observing the session *)

(** One iteration of [loop] as the environment sees it: the absolute time
    in milliseconds at which it starts, the pin levels, and the later clock
    reading. *)
Record Tick := mkTick {
  tickTime : Z;
  tickPins : Pin -> Level;
  tickClock : Z
}.

Definition tick (k : Tick) (w : World) : World :=
  loop (millis (tickTime k)) (tickPins k) (tickClock k) w.

Fixpoint runTicks (ks : list Tick) (w : World) : World :=
  match ks with
  | [] => w
  | k :: ks => runTicks ks (tick k w)
  end.

(** The game implementation behind each menu entry. *)
Definition moduleOf (id : GameId) : Module :=
  match id with
  | GAME_SNAKE_WALL | GAME_SNAKE_WRAP => Snake
  | GAME_TETRIS => Tetris
  | GAME_FLAPPY_EASY => FlappyEasy
  | GAME_FLAPPY_HARD => FlappyHard
  | GAME_ASTEROIDS_HARD => AsteroidsHard
  | GAME_PACMAN_EASY => PacEasy
  | GAME_PACMAN_HARD => Pacman
  | GAME_SPACE_SHOOTER => SpaceShooter
  | GAME_BREAKOUT => Breakout
  | GAME_TTT_AI | GAME_TTT_2P => TicTacToe
  | GAME_PONG => Pong
  | GAME_TUG => TugOfWar
  | GAME_CHECKERS_AI | GAME_CHECKERS_2P => Checkers
  | GAME_MINESWEEPER => Minesweeper
  | GAME_DINO => Dino
  end.

(** The games whose update function handles the pause flag. *)
Definition pausable (id : GameId) : bool :=
  match id with
  | GAME_SNAKE_WALL | GAME_SNAKE_WRAP | GAME_PACMAN_EASY | GAME_PACMAN_HARD
  | GAME_BREAKOUT | GAME_PONG | GAME_DINO => true
  | _ => false
  end.

(** Among them, the games whose update function returns right after
    toggling the flag. *)
Definition returnsAfterToggle (id : GameId) : bool :=
  match id with
  | GAME_PACMAN_EASY | GAME_PACMAN_HARD | GAME_BREAKOUT | GAME_PONG => true
  | _ => false
  end.

(** The pause handling at the head of those update functions:
    [if (takePress(B_PAUSE)) { gamePaused = !gamePaused; beepButton(); }]. *)
Definition pauseInput (w : World) : World :=
  let '(p, w) := pressed B_PAUSE w in
  if p then togglePause w else w.


End WithCollaborators.


(** From [w] to [w'] the sound globals were changed by calls of
    [enqueueTone], [updateSound] and [setSoundMuted] only. *)
Definition viaSoundCalls (w w' : World) : Prop :=
  exists ops : list SoundOp, sound w' = runSound ops (sound w).


(** The globals as initialised, after [setup]: [rd] and [clock] are the
    readings of [initButtons], [t] the reading that starts the two frame
    timers, [g] the module state. *)
Definition bootWorld (rd : Pin -> Level) (clock : ButtonId -> Z) (t : Z)
    (g : G) : World :=
  mkWorld (initButtons rd clock) bootSound STATE_MENU GAME_SNAKE_WALL 0 0
          (fun _ => 0) false "Game over" false false 0
          (replicate MATRIX_COUNT 0) t t
          (mkNeoPixel (replicate MATRIX_COUNT 0) (replicate MATRIX_COUNT 0))
          [] g.

End Host.

Arguments World G : clear implicits.
Arguments Collaborators G : clear implicits.

(** ** The first sketch

    The repository also holds the first version of the sketch, with
    fourteen games and without the mute flag, the pause flag and the
    game-over timer.  Its button and frame-buffer functions are, under
    shorter names ([take], [down], [clearEdges], [idx], [px]), the ones
    above.  Its tone queue and its round end differ and are given here, on
    the same records; the fields added later are left as they are. *)
Module FirstSketch.

Definition TQ : nat := 24.

Definition enqueueTone (f d : Z) (s : Sound) : Sound :=
  let n := ((toneTail s + 1) mod TQ)%nat in
  if (n =? toneHead s)%nat then s
  else set_toneTail n (set_toneQueue (<[toneTail s := mkTone f d]> (toneQueue s)) s).

Definition beepLose (s : Sound) : Sound :=
  enqueueTone 430 90 (enqueueTone 700 70 (enqueueTone 1000 60 s)).

Definition beepWin (s : Sound) : Sound :=
  enqueueTone 1400 80 (enqueueTone 1050 50 (enqueueTone 800 50 s)).

Definition updateSound (now : Z) (s : Sound) : Sound :=
  let s := if toneActive s && (toneEndTime s <=? now) then silence s else s in
  if negb (toneActive s) && negb (toneHead s =? toneTail s)%nat then
    let ev := toneQueue s !!! toneHead s in
    let s := set_toneHead ((toneHead s + 1) mod TQ)%nat s in
    let s := buzz (Tone ev) s in
    let s := set_toneEndTime (add32 now (duration ev)) s in
    set_toneActive true s
  else s.

Definition finish {G : Type} (win : bool) (msg : option string) (w : World G)
    : World G :=
  if negb (bool_decide (systemState w = STATE_PLAYING)) then w
  else
    let w :=
      if score w >? highScore w (currentGame w)
      then set_highScore
             (fun id => if decide (id = currentGame w) then score w
                        else highScore w id) w
      else w in
    let w := set_lastWin win w in
    let w :=
      set_lastMsg
        (clipMsg (match msg with
                  | Some m => m
                  | None => if win then "Win" else "Game over"
                  end)) w in
    let w := set_systemState STATE_GAME_OVER w in
    let w := set_buttons (clearButtonEdges (buttons w)) w in
    if win then beep beepWin w else beep beepLose w.

End FirstSketch.

(** ** A module set to run the host with: Tug of War *)

(** [struct TugOfWar]. *)
Record Tug := mkTug {
  position : Z;
  player1LastPress : Z;
  player2LastPress : Z
}.

(** [tugInit]; its [score = 0] is part of [initGame]. *)
Definition tugInit (clk : Z) : Tug := mkTug 4 clk clk.

(** The calls [tugUpdate] makes when it runs from [w] at [now]; [lag] is
    how much later the clock reads when the round is finished.  A press is
    taken from UP, and from LEFT only if UP had none; likewise DOWN, RIGHT,
    PAUSE for the second player. *)
Definition tugLogic (lag : Z) (now : Z) (w : World Tug) : list (ModuleCall Tug) :=
  let down id := press (buttons w id) in
  let g := gameState w in
  let take1 :=
    MTakePress B_UP :: (if down B_UP then [] else [MTakePress B_LEFT]) in
  let pull1 :=
    (down B_UP || down B_LEFT) && (80 <=? sub32 now (player1LastPress g)) in
  let g1 :=
    if pull1 then mkTug (position g - 1) now (player2LastPress g) else g in
  let score1 := if pull1 then score w + 1 else score w in
  let calls1 :=
    if pull1 then [MSetState g1; MSetScore score1; MEnqueueTone 1200 26]
    else [] in
  let take2 :=
    MTakePress B_DOWN
      :: (if down B_DOWN then []
          else MTakePress B_RIGHT
                 :: (if down B_RIGHT then [] else [MTakePress B_PAUSE])) in
  let pull2 :=
    (down B_DOWN || down B_RIGHT || down B_PAUSE)
    && (80 <=? sub32 now (player2LastPress g1)) in
  let g2 :=
    if pull2 then mkTug (position g1 + 1) (player1LastPress g1) now else g1 in
  let calls2 :=
    if pull2 then [MSetState g2; MSetScore (score1 + 1); MEnqueueTone 1200 26]
    else [] in
  let finish :=
    if position g2 <=? 0 then [MFinishGame (add32 now lag) true (Some "P1 wins")]
    else if 7 <=? position g2
         then [MFinishGame (add32 now lag) true (Some "P2 wins")]
         else [] in
  take1 ++ calls1 ++ take2 ++ calls2 ++ finish.

(** [tugDraw]; the three colours are already packed. *)
Definition tugDraw (pack : Z -> Z -> Z -> Z) (w : World Tug) : list DrawCall :=
  DClear 0
    :: map (fun x => DPixel (Z.of_nat x) 3 (pack 8 8 8)) (seq 0 8)
    ++ [DPixel 0 3 (pack 0 50 0); DPixel 7 3 (pack 50 0 0);
        DPixel (position (gameState w)) 3 (pack 65 55 0)].

(** [Adafruit_NeoPixel::Color]: red, green and blue packed into 24 bits. *)
Definition packRGB (r g b : Z) : Z :=
  Z.lor (Z.shiftl r 16) (Z.lor (Z.shiftl g 8) b).

(** The console with Tug of War as its only implemented game: the other
    modules keep their state and make no call. *)
Definition tugOnly (lag : Z) : Collaborators Tug :=
  mkCollaborators
    packRGB
    (fun id clk g => match id with GAME_TUG => tugInit clk | _ => g end)
    (fun m now w => match m with TugOfWar => tugLogic lag now w | _ => [] end)
    (fun m w => match m with TugOfWar => tugDraw packRGB w | _ => [DClear 0] end).

(** ** Inputs used in the examples *)

(** The scenario of the specification: thirty events offered to an empty
    queue of 24 slots; 23 are kept and played back, in order. *)
Definition thirtyTones : list SoundOp := replicate 30 (OpEnqueue 440 50).

(** Three tones are offered; the first is started at once, the second when
    the first has run out, the third is still queued. *)
Definition threeTones : list SoundOp :=
  [OpEnqueue 500 45; OpEnqueue 850 45; OpUpdate 10; OpEnqueue 1200 65;
   OpUpdate 20; OpUpdate 55].

(** Two tones are queued, the first is playing; then the sound is muted. *)
Definition twoQueued : Sound :=
  runSound [OpEnqueue 800 50; OpEnqueue 1050 50; OpUpdate 5] bootSound.

(** No button is held: every input pin is pulled up. *)
Definition allHigh : Pin -> Level := fun _ => HIGH.

(** The button on pin [p] is held, no other. *)
Definition holding (p : Pin) : Pin -> Level :=
  fun q => if decide (q = p) then LOW else HIGH.

(** Two iterations, 30 ms apart, with the same pin levels: long enough for
    the debouncer to commit a change. *)
Definition settle (rd : Pin -> Level) (t : Z) : list Tick :=
  [mkTick t rd t; mkTick (t + 30) rd (t + 30)].

(** The button on pin [p] pressed at [t] and let go 50 ms later. *)
Definition click (p : Pin) (t : Z) : list Tick :=
  settle (holding p) t ++ settle allHigh (t + 50).

(** The console after [setup], with nothing held. *)
Definition bootTug : World Tug :=
  bootWorld allHigh (fun _ => 0) 0 (mkTug 0 0 0).

(** From the menu to Tug of War: UP five times, then PAUSE to start. *)
Definition toTugOfWar : list Tick :=
  click BTN_UP 100 ++ click BTN_UP 200 ++ click BTN_UP 300
  ++ click BTN_UP 400 ++ click BTN_UP 500 ++ click BTN_PAUSE 600.

(** Tug of War being played, 120 ms after its start. *)
Definition tugPlaying : World Tug := runTicks (tugOnly 0) toTugOfWar bootTug.

(** The second player pulls the rope over: PAUSE twice, then PAUSE held.
    The third pull ends the round at 1030 ms. *)
Definition tugOver : World Tug :=
  runTicks (tugOnly 0)
    (click BTN_PAUSE 800 ++ click BTN_PAUSE 900 ++ settle (holding BTN_PAUSE) 1000)
    tugPlaying.


(** The idle buttons, as [initButtons] leaves them with nothing held. *)
Definition idleButtons : Buttons := initButtons allHigh (fun _ => 0).

(** A contact that closes at 100 ms, is still closed at 105 ms and is open
    again at 110 ms. *)
Definition shortBounce : list Sample :=
  [(100, holding BTN_PAUSE); (105, holding BTN_PAUSE); (110, allHigh)].

(* ===================================================================== *)
(** * Part II. Properties                                                 *)
(* ===================================================================== *)

(** Reduce the field accesses and field updates of the sound record. *)
Ltac sound_fields :=
  cbn [toneQueue toneHead toneTail toneActive toneEndTime soundMuted buzzer
       set_toneHead set_toneTail set_toneQueue set_toneActive set_toneEndTime
       set_soundMuted buzz silence] in *.

(** Split a conjunction into its parts, and nothing else. *)
Ltac conjs := repeat match goal with |- _ /\ _ => split end.

Section ToneSequencer.

Lemma bootSound_ok : SoundOk bootSound.
Proof. split; cbn; try reflexivity; unfold TONE_QUEUE_SIZE; lia. Qed.

(** *** Buzzer logs *)

Lemma started_app (l k : list BuzzerCall) :
  started (l ++ k) = started l ++ started k.
Proof.
  induction l as [|[ev|] l IH]; cbn; [reflexivity | | assumption].
  now rewrite IH.
Qed.

Lemma sounding_app (on : bool) (l k : list BuzzerCall) :
  sounding on (l ++ k) = sounding (sounding on l) k.
Proof.
  revert on; induction l as [|[ev|] l IH]; intros on; cbn; auto.
Qed.

Lemma oneAtATime_app (on : bool) (l k : list BuzzerCall) :
  oneAtATime on (l ++ k) <-> oneAtATime on l /\ oneAtATime (sounding on l) k.
Proof.
  revert on; induction l as [|[ev|] l IH]; intros on; cbn.
  - tauto.
  - rewrite IH. tauto.
  - apply IH.
Qed.

(** *** The ring of slots *)

Lemma slots_length (q : list ToneEvent) (h n : nat) : length (slots q h n) = n.
Proof. revert h; induction n as [|n IH]; intros h; cbn; auto. Qed.

Lemma slots_snoc (q : list ToneEvent) (ev : ToneEvent) (n h : nat) :
  length q = TONE_QUEUE_SIZE ->
  (h < TONE_QUEUE_SIZE)%nat ->
  (n < TONE_QUEUE_SIZE)%nat ->
  slots (<[((h + n) mod TONE_QUEUE_SIZE)%nat := ev]> q) h (S n)
  = slots q h n ++ [ev].
Proof.
  unfold TONE_QUEUE_SIZE. intros Hq. revert h.
  induction n as [|n IH]; intros h Hh Hn.
  - cbn. replace ((h + 0) mod 24)%nat with h by lia.
    rewrite list_lookup_total_insert_eq by lia. reflexivity.
  - change (slots ?q' h (S (S n)))
      with (q' !!! h :: slots q' ((h + 1) mod TONE_QUEUE_SIZE)%nat (S n)).
    change (slots q h (S n))
      with (q !!! h :: slots q ((h + 1) mod TONE_QUEUE_SIZE)%nat n).
    unfold TONE_QUEUE_SIZE.
    rewrite list_lookup_total_insert_ne by lia.
    replace ((h + S n) mod 24)%nat with (((h + 1) mod 24 + n) mod 24)%nat by lia.
    rewrite IH by lia. reflexivity.
Qed.

Lemma pending_length (s : Sound) : length (pending s) = occupancy s.
Proof. apply slots_length. Qed.

Lemma occupancy_bound (s : Sound) : (occupancy s <= TONE_QUEUE_SIZE - 1)%nat.
Proof. unfold occupancy, TONE_QUEUE_SIZE. lia. Qed.

(** *** [enqueueTone] *)

(** The queue is full when advancing the tail would reach the head. *)
Lemma full_iff (s : Sound) :
  SoundOk s ->
  ((toneTail s + 1) mod TONE_QUEUE_SIZE)%nat = toneHead s
  <-> occupancy s = (TONE_QUEUE_SIZE - 1)%nat.
Proof.
  intros [_ Hh Ht _]. unfold occupancy, TONE_QUEUE_SIZE in *. lia.
Qed.

Lemma enqueueTone_full (f d : Z) (s : Sound) :
  SoundOk s -> occupancy s = (TONE_QUEUE_SIZE - 1)%nat -> enqueueTone f d s = s.
Proof.
  intros Hok Hfull. apply full_iff in Hfull; [|assumption].
  unfold enqueueTone. destruct (soundMuted s); [reflexivity|].
  cbv zeta. rewrite Hfull, Nat.eqb_refl. reflexivity.
Qed.

Lemma enqueueTone_muted (f d : Z) (s : Sound) :
  soundMuted s = true -> enqueueTone f d s = s.
Proof. intros Hm. unfold enqueueTone. now rewrite Hm. Qed.

Lemma enqueueTone_accept (f d : Z) (s : Sound) :
  SoundOk s ->
  soundMuted s = false ->
  occupancy s <> (TONE_QUEUE_SIZE - 1)%nat ->
  let s' := enqueueTone f d s in
  pending s' = pending s ++ [mkTone f d]
  /\ toneTail s' <> toneTail s
  /\ toneHead s' = toneHead s
  /\ buzzer s' = buzzer s
  /\ toneActive s' = toneActive s
  /\ soundMuted s' = false
  /\ SoundOk s'.
Proof.
  intros Hok Hm Hfull.
  assert (Hne : ((toneTail s + 1) mod TONE_QUEUE_SIZE)%nat <> toneHead s)
    by (now rewrite full_iff).
  destruct Hok as [Hq Hh Ht Ha].
  unfold enqueueTone. rewrite Hm. cbv zeta.
  destruct (Nat.eqb_spec ((toneTail s + 1) mod TONE_QUEUE_SIZE) (toneHead s))
    as [E|_]; [contradiction|].
  cbn [toneTail toneHead buzzer toneActive soundMuted set_toneTail set_toneQueue].
  split; [|split; [|split; [|split; [|split; [|split]]]]];
    try reflexivity; try assumption.
  - unfold pending, occupancy.
    cbn [toneTail toneHead toneQueue set_toneTail set_toneQueue].
    set (n := ((toneTail s + TONE_QUEUE_SIZE - toneHead s) mod TONE_QUEUE_SIZE)%nat).
    replace (((toneTail s + 1) mod TONE_QUEUE_SIZE + TONE_QUEUE_SIZE
              - toneHead s) mod TONE_QUEUE_SIZE)%nat with (S n)
      by (subst n; unfold TONE_QUEUE_SIZE in *; lia).
    replace (toneTail s) with ((toneHead s + n) mod TONE_QUEUE_SIZE)%nat at 1
      by (subst n; unfold TONE_QUEUE_SIZE in *; lia).
    apply slots_snoc; [assumption..|].
    subst n; unfold TONE_QUEUE_SIZE; lia.
  - unfold TONE_QUEUE_SIZE in *; lia.
  - split; cbn; [now rewrite length_insert|assumption| |assumption].
    unfold TONE_QUEUE_SIZE; lia.
Qed.

(** *** [updateSound] *)

Lemma pending_empty (s : Sound) : toneHead s = toneTail s -> pending s = [].
Proof.
  intros E. unfold pending, occupancy. rewrite E.
  replace ((toneTail s + TONE_QUEUE_SIZE - toneTail s) mod TONE_QUEUE_SIZE)%nat
    with 0%nat by (unfold TONE_QUEUE_SIZE; lia).
  reflexivity.
Qed.

Lemma pending_head (s : Sound) :
  SoundOk s ->
  toneHead s <> toneTail s ->
  pending s
  = (toneQueue s !!! toneHead s)
      :: pending (set_toneHead ((toneHead s + 1) mod TONE_QUEUE_SIZE)%nat s).
Proof.
  intros [_ Hh Ht _] Hne. unfold pending, occupancy.
  cbn [toneHead toneTail toneQueue set_toneHead].
  set (k := ((toneTail s + TONE_QUEUE_SIZE
              - (toneHead s + 1) mod TONE_QUEUE_SIZE) mod TONE_QUEUE_SIZE)%nat).
  replace ((toneTail s + TONE_QUEUE_SIZE - toneHead s) mod TONE_QUEUE_SIZE)%nat
    with (S k) by (subst k; unfold TONE_QUEUE_SIZE in *; lia).
  reflexivity.
Qed.

(** What one call of [updateSound] does to an unmuted sequencer. *)
Lemma updateSound_unmuted (now : Z) (s : Sound) :
  SoundOk s ->
  soundMuted s = false ->
  let s' := updateSound now s in
  exists calls,
    buzzer s' = buzzer s ++ calls
    /\ oneAtATime (toneActive s) calls
    /\ started calls ++ pending s' = pending s
    /\ toneTail s' = toneTail s
    /\ soundMuted s' = false
    /\ SoundOk s'.
Proof.
  intros Hok Hm.
  assert (Hph := pending_head s Hok).
  destruct Hok as [Hq Hh Ht Ha].
  destruct s as [q h t a e m b]. sound_fields. subst m.
  assert (Hmod : ((h + 1) mod TONE_QUEUE_SIZE < TONE_QUEUE_SIZE)%nat)
    by (unfold TONE_QUEUE_SIZE; lia).
  unfold updateSound; sound_fields.
  destruct (a && (e <=? now)) eqn:Hstop; cbv zeta; sound_fields.
  - (* the sounding tone has run out *)
    destruct (Nat.eqb_spec h t) as [E|E]; cbn [negb andb]; sound_fields.
    + exists [NoTone]. repeat split; sound_fields; try done.
      rewrite sounding_app. reflexivity.
    + exists [NoTone; Tone (q !!! h)].
      repeat split; sound_fields; try done.
      * now rewrite <- app_assoc.
      * rewrite (Hph E). reflexivity.
      * rewrite !sounding_app. reflexivity.
  - destruct a; cbn [negb andb]; sound_fields.
    + exists []. repeat split; sound_fields; try done. now rewrite app_nil_r.
    + destruct (Nat.eqb_spec h t) as [E|E]; cbn [negb]; sound_fields.
      * exists []. repeat split; sound_fields; try done. now rewrite app_nil_r.
      * exists [Tone (q !!! h)].
        repeat split; sound_fields; try done.
        -- rewrite (Hph E). reflexivity.
        -- rewrite sounding_app. reflexivity.
Qed.

(** A muted sequencer only silences the buzzer and empties the queue. *)
Lemma updateSound_muted (now : Z) (s : Sound) :
  SoundOk s ->
  soundMuted s = true ->
  let s' := updateSound now s in
  exists calls,
    buzzer s' = buzzer s ++ calls
    /\ oneAtATime (toneActive s) calls
    /\ started calls = []
    /\ pending s' = []
    /\ toneTail s' = toneTail s
    /\ soundMuted s' = true
    /\ SoundOk s'.
Proof.
  intros [Hq Hh Ht Ha] Hm.
  destruct s as [q h t a e m b]. cbn in Hq, Hh, Ht, Ha, Hm. subst m.
  unfold updateSound; cbn [soundMuted toneActive].
  destruct a; cbv zeta.
  - exists [NoTone]. repeat split; cbn; try done.
    + now apply pending_empty.
    + rewrite sounding_app. reflexivity.
  - exists []. repeat split; cbn; try done.
    + now rewrite app_nil_r.
    + now apply pending_empty.
Qed.

(** *** [setSoundMuted] *)

Lemma setSoundMuted_true (s : Sound) :
  SoundOk s ->
  let s' := setSoundMuted true s in
  buzzer s' = buzzer s ++ [NoTone]
  /\ toneActive s' = false
  /\ toneHead s' = toneTail s'
  /\ pending s' = []
  /\ soundMuted s' = true
  /\ SoundOk s'.
Proof.
  intros [Hq Hh Ht Ha]. cbn. repeat split; try done.
  - cbn. unfold TONE_QUEUE_SIZE; lia.
  - cbn. unfold TONE_QUEUE_SIZE; lia.
  - cbn. rewrite sounding_app. reflexivity.
Qed.

Lemma setSoundMuted_false (s : Sound) :
  SoundOk s ->
  let s' := setSoundMuted false s in
  buzzer s' = buzzer s
  /\ pending s' = pending s
  /\ toneTail s' = toneTail s
  /\ toneActive s' = toneActive s
  /\ SoundOk s'.
Proof. intros [Hq Hh Ht Ha]. cbn. repeat split; done. Qed.

(** *** One call, any entry point *)

Lemma acceptedBy_rejected (f d : Z) (s : Sound) :
  enqueueTone f d s = s -> acceptedBy (OpEnqueue f d) s = [].
Proof. intros E. cbn. now rewrite E, Nat.eqb_refl. Qed.

Lemma stepSound_facts (op : SoundOp) (s : Sound) :
  SoundOk s ->
  let s' := stepSound op s in
  exists calls,
    buzzer s' = buzzer s ++ calls
    /\ oneAtATime (toneActive s) calls
    /\ SoundOk s'
    /\ started calls ++ pending s' `sublist_of` pending s ++ acceptedBy op s
    /\ (isMute op = false ->
        soundMuted s' = soundMuted s
        /\ if soundMuted s
           then started calls = [] /\ acceptedBy op s = []
           else started calls ++ pending s' = pending s ++ acceptedBy op s).
Proof.
  intros Hok. destruct op as [f d|now|[|]]; cbn [stepSound isMute].
  - (* enqueueTone *)
    exists []. rewrite app_nil_r. cbn [oneAtATime started app].
    destruct (soundMuted s) eqn:Hm.
    { rewrite (enqueueTone_muted f d s Hm), Hm.
      rewrite (acceptedBy_rejected f d s (enqueueTone_muted f d s Hm)).
      rewrite app_nil_r. conjs; done. }
    destruct (decide (occupancy s = (TONE_QUEUE_SIZE - 1)%nat)) as [Hfull|Hfree].
    { rewrite (enqueueTone_full f d s Hok Hfull), Hm.
      rewrite (acceptedBy_rejected f d s (enqueueTone_full f d s Hok Hfull)).
      rewrite app_nil_r. conjs; done. }
    destruct (enqueueTone_accept f d s Hok Hm Hfree)
      as (Hp & Htail & _ & Hb & _ & Hm' & Hok').
    assert (Hacc : acceptedBy (OpEnqueue f d) s = [mkTone f d]).
    { cbn. destruct (Nat.eqb_spec (toneTail (enqueueTone f d s)) (toneTail s));
        [contradiction|reflexivity]. }
    rewrite Hacc, Hp, Hb, Hm'. conjs; done.
  - (* updateSound *)
    cbn [acceptedBy]. rewrite app_nil_r.
    destruct (soundMuted s) eqn:Hm.
    + destruct (updateSound_muted now s Hok Hm)
        as (calls & Hb & Hone & Hst & Hp & _ & Hm' & Hok').
      exists calls. rewrite Hst, Hp, Hm'. conjs; try done.
      apply sublist_nil_l.
    + destruct (updateSound_unmuted now s Hok Hm)
        as (calls & Hb & Hone & Hp & _ & Hm' & Hok').
      exists calls. rewrite Hp, Hm'. conjs; done.
  - (* setSoundMuted(true) *)
    destruct (setSoundMuted_true s Hok) as (Hb & _ & _ & Hp & _ & Hok').
    exists [NoTone]. rewrite Hp. conjs; try done.
    apply sublist_nil_l.
  - (* setSoundMuted(false) *)
    destruct (setSoundMuted_false s Hok) as (Hb & Hp & _ & _ & Hok').
    exists []. rewrite Hp, Hb, !app_nil_r. conjs; done.
Qed.

(** *** Runs *)

Lemma emitted_eq (ops : list SoundOp) (s : Sound) (calls : list BuzzerCall) :
  buzzer (runSound ops s) = buzzer s ++ calls -> emitted ops s = calls.
Proof. intros E. unfold emitted. rewrite E. apply drop_app_length. Qed.

Lemma active_after (s s' : Sound) (calls : list BuzzerCall) :
  SoundOk s -> SoundOk s' -> buzzer s' = buzzer s ++ calls ->
  toneActive s' = sounding (toneActive s) calls.
Proof.
  intros [_ _ _ Ha] [_ _ _ Ha'] Hb.
  rewrite Ha', Hb, sounding_app, <- Ha. reflexivity.
Qed.

(** Every run: the invariant is kept, tones never overlap, and what was
    started or is still queued was queued or accepted before, in order. *)
Lemma runSound_facts (ops : list SoundOp) :
  forall s : Sound,
  SoundOk s ->
  exists calls,
    buzzer (runSound ops s) = buzzer s ++ calls
    /\ oneAtATime (toneActive s) calls
    /\ SoundOk (runSound ops s)
    /\ started calls ++ pending (runSound ops s)
         `sublist_of` pending s ++ accepted ops s.
Proof.
  induction ops as [|op ops IH]; intros s Hok.
  - exists []. cbn. rewrite !app_nil_r. conjs; done.
  - destruct (stepSound_facts op s Hok) as (c1 & Hb1 & H1 & Hok1 & Hsub1 & _).
    destruct (IH _ Hok1) as (c2 & Hb2 & H2 & Hok2 & Hsub2).
    exists (c1 ++ c2). cbn [runSound accepted].
    split; [now rewrite Hb2, Hb1, app_assoc|].
    split; [|split; [assumption|]].
    + apply oneAtATime_app. split; [assumption|].
      now rewrite <- (active_after s _ c1 Hok Hok1 Hb1).
    + rewrite started_app, <- app_assoc, (app_assoc (pending s)).
      etransitivity; [|apply sublist_app; [exact Hsub1|reflexivity]].
      rewrite <- app_assoc. apply sublist_app; [reflexivity|exact Hsub2].
Qed.

(** Runs of [enqueueTone] and [updateSound] only: nothing is lost while
    unmuted, nothing is accepted or started while muted. *)
Lemma runSound_exact (ops : list SoundOp) :
  forall s : Sound,
  SoundOk s ->
  Forall (fun op => isMute op = false) ops ->
  soundMuted (runSound ops s) = soundMuted s
  /\ if soundMuted s
     then started (emitted ops s) = [] /\ accepted ops s = []
     else started (emitted ops s) ++ pending (runSound ops s)
          = pending s ++ accepted ops s.
Proof.
  induction ops as [|op ops IH]; intros s Hok Hops.
  - unfold emitted. cbn. rewrite drop_all, app_nil_r.
    split; [reflexivity|]. destruct (soundMuted s); done.
  - apply Forall_cons in Hops as [Hop Hops].
    destruct (stepSound_facts op s Hok) as (c1 & Hb1 & _ & Hok1 & _ & Hex).
    destruct (Hex Hop) as [Hm1 Hex1]. clear Hex.
    destruct (runSound_facts ops _ Hok1) as (c2 & Hb2 & _ & _ & _).
    destruct (IH _ Hok1 Hops) as [Hm2 Hex2].
    rewrite (emitted_eq ops _ c2 Hb2) in Hex2.
    assert (Hem : emitted (op :: ops) s = c1 ++ c2).
    { apply emitted_eq. cbn [runSound]. now rewrite Hb2, Hb1, app_assoc. }
    rewrite Hem, started_app. cbn [runSound accepted].
    split; [congruence|].
    rewrite Hm1 in Hex2. destruct (soundMuted s).
    + destruct Hex1 as [-> ->], Hex2 as [-> ->]. done.
    + rewrite <- app_assoc, Hex2, !app_assoc, Hex1. reflexivity.
Qed.

Lemma runSound_emitted (ops : list SoundOp) (s : Sound) :
  SoundOk s -> buzzer (runSound ops s) = buzzer s ++ emitted ops s.
Proof.
  intros Hok. destruct (runSound_facts ops s Hok) as (calls & Hb & _).
  now rewrite (emitted_eq ops s calls Hb).
Qed.

(** Thirty events offered to the empty queue: seven are dropped. *)
Example thirty_enqueues :
  accepted thirtyTones bootSound = replicate 23 (mkTone 440 50)
  /\ occupancy (runSound thirtyTones bootSound) = 23%nat
  /\ pending (runSound thirtyTones bootSound) = replicate 23 (mkTone 440 50).
Proof. vm_compute. conjs; reflexivity. Qed.

(** C3. Along every sequence of [enqueueTone] and [updateSound] calls the
    occupancy of the tone queue stays at or below 23 of its 24 slots: the
    events queued or accepted so far outnumber the events started by at
    most 23.  An [enqueueTone] call made at occupancy 23 returns the
    sequencer as it was (queue contents, head, tail and everything else),
    and the call is not counted as accepted; the function has no result
    through which it could tell its caller. *)
Theorem tone_queue_bound (ops : list SoundOp) (s : Sound) :
  SoundOk s ->
  Forall (fun op => isMute op = false) ops ->
  let s' := runSound ops s in
  (occupancy s' <= 23)%nat
  /\ (length (pending s ++ accepted ops s)
      <= length (started (emitted ops s)) + 23)%nat
  /\ (occupancy s' = 23%nat ->
      forall f d, enqueueTone f d s' = s'
                  /\ acceptedBy (OpEnqueue f d) s' = []).
Proof.
  intros Hok Hops s'.
  destruct (runSound_facts ops s Hok) as (calls & _ & _ & Hok' & _).
  destruct (runSound_exact ops s Hok Hops) as [_ Hex].
  assert (Hb := occupancy_bound s'). assert (Hb0 := occupancy_bound s).
  unfold TONE_QUEUE_SIZE in Hb, Hb0.
  split; [lia|split].
  - destruct (soundMuted s).
    + destruct Hex as [-> ->]. rewrite app_nil_r, pending_length. cbn. lia.
    + rewrite <- Hex, length_app, pending_length. fold s'. lia.
  - intros Hfull f d.
    assert (E : enqueueTone f d s' = s') by now apply enqueueTone_full.
    split; [exact E|now apply acceptedBy_rejected].
Qed.

Lemma tone_queue_bound_witness :
  let s' := runSound thirtyTones bootSound in
  (occupancy s' <= 23)%nat
  /\ (length (pending bootSound ++ accepted thirtyTones bootSound)
      <= length (started (emitted thirtyTones bootSound)) + 23)%nat
  /\ (occupancy s' = 23%nat ->
      forall f d, enqueueTone f d s' = s'
                  /\ acceptedBy (OpEnqueue f d) s' = []).
Proof.
  apply (tone_queue_bound thirtyTones bootSound bootSound_ok).
  unfold thirtyTones. repeat constructor.
Defined.


Example threeTones_run :
  emitted threeTones bootSound
  = [Tone (mkTone 500 45); NoTone; Tone (mkTone 850 45)]
  /\ pending (runSound threeTones bootSound) = [mkTone 1200 65].
Proof. vm_compute. split; reflexivity. Qed.


(** C10. Muting discards what is queued.  When [setSoundMuted(true)]
    returns, no tone is active, the buzzer is silent and the queue is empty
    (head equals tail).  Whatever calls follow, muting and unmuting
    included, every event started afterwards was accepted by an
    [enqueueTone] call made after the mute: nothing queued before it is
    played later. *)
Theorem mute_discards_queue (s : Sound) :
  SoundOk s ->
  let s' := setSoundMuted true s in
  toneActive s' = false
  /\ sounding false (buzzer s') = false
  /\ toneHead s' = toneTail s'
  /\ pending s' = []
  /\ forall ops : list SoundOp,
       started (emitted ops s') `sublist_of` accepted ops s'.
Proof.
  intros Hok s'.
  destruct (setSoundMuted_true s Hok) as (_ & Ha & Hht & Hp & _ & Hok').
  fold s' in Ha, Hht, Hp, Hok'.
  conjs; try assumption.
  - rewrite <- Ha. symmetry. apply Hok'.
  - intros ops.
    destruct (runSound_facts ops s' Hok') as (calls & Hb & _ & _ & Hsub).
    rewrite (emitted_eq ops s' calls Hb).
    rewrite Hp in Hsub. cbn [app] in Hsub.
    etransitivity; [|exact Hsub]. apply sublist_inserts_r. reflexivity.
Qed.

Example twoQueued_muted_unmuted :
  pending twoQueued = [mkTone 1050 50]
  /\ toneActive twoQueued = true
  /\ emitted [OpMute false; OpEnqueue 1200 26; OpUpdate 100; OpUpdate 200]
             (setSoundMuted true twoQueued)
     = [Tone (mkTone 1200 26); NoTone].
Proof. vm_compute. conjs; reflexivity. Qed.

Lemma twoQueued_ok : SoundOk twoQueued.
Proof. split; vm_compute; try reflexivity; lia. Qed.

Lemma mute_discards_queue_witness :
  let s' := setSoundMuted true twoQueued in
  toneActive s' = false
  /\ sounding false (buzzer s') = false
  /\ toneHead s' = toneTail s'
  /\ pending s' = []
  /\ forall ops : list SoundOp,
       started (emitted ops s') `sublist_of` accepted ops s'.
Proof. exact (mute_discards_queue twoQueued twoQueued_ok). Defined.

End ToneSequencer.

Section InputManager.

Lemma sub32_millis (a b : Z) : sub32 (millis a) (millis b) = (a - b) mod U32.
Proof. unfold sub32, millis. symmetry. apply Zminus_mod. Qed.

Lemma debounce_pin (now : Z) (raw : bool) (b : Button) :
  pin (debounce now raw b) = pin b.
Proof.
  unfold debounce.
  destruct (negb (eqb raw (last b))); cbn;
    destruct (_ && _); try reflexivity; destruct raw; reflexivity.
Qed.

Lemma sampleButtons_feed (ss : list Sample) :
  forall (bs : Buttons) (id : ButtonId),
  sampleButtons ss bs id = feed (rawOf (pin (bs id)) ss) (bs id).
Proof.
  induction ss as [|[t rd] ss IH]; intros bs id; [reflexivity|].
  cbn [sampleButtons]. rewrite IH.
  unfold updateButtons. rewrite debounce_pin. reflexivity.
Qed.

(** A reading that repeats the level last seen, on a button whose stable
    level is that level, changes nothing. *)
Lemma debounce_at_rest (now : Z) (b : Button) :
  last b = stable b -> debounce now (last b) b = b.
Proof.
  intros E. unfold debounce. rewrite eqb_reflx. cbn [negb].
  rewrite <- E, eqb_reflx. cbn [negb]. now rewrite andb_false_r.
Qed.

(** A reading that repeats the level last seen, taken less than the
    debounce window after the transition, changes nothing. *)
Lemma debounce_early (t t0 : Z) (b : Button) :
  changedAt b = millis t0 ->
  t0 <= t < t0 + BTN_DEBOUNCE_MS ->
  debounce (millis t) (last b) b = b.
Proof.
  intros E Ht. unfold debounce. rewrite eqb_reflx. cbn [negb].
  rewrite E, sub32_millis.
  replace ((t - t0) mod U32) with (t - t0)
    by (unfold U32, BTN_DEBOUNCE_MS in *; lia).
  destruct (Z.leb_spec BTN_DEBOUNCE_MS (t - t0)); [lia|reflexivity].
Qed.

(** A reading that differs from the level last seen restarts the window
    and commits nothing. *)
Lemma debounce_transition (t : Z) (r : bool) (b : Button) :
  r <> last b ->
  debounce (millis t) r b
  = mkButton (pin b) (stable b) r (press b) (release b) (millis t).
Proof.
  intros Hne. unfold debounce.
  destruct (eqb_spec r (last b)) as [E|_]; [contradiction|]. cbn [negb changedAt].
  rewrite sub32_millis, Z.sub_diag. reflexivity.
Qed.

Lemma feed_calm (raws : list (Z * bool)) :
  forall (b : Button) (since : option Z),
  match since with
  | Some t0 => changedAt b = millis t0
  | None => last b = stable b
  end ->
  calm since (last b) raws ->
  stable (feed raws b) = stable b
  /\ press (feed raws b) = press b
  /\ release (feed raws b) = release b.
Proof.
  induction raws as [|[t r] raws IH]; intros b since Hsince Hcalm;
    [cbn; conjs; reflexivity|].
  cbn [feed calm] in *.
  destruct (eqb_spec r (last b)) as [->|Hne].
  - destruct Hcalm as [Hwin Hcalm].
    assert (E : debounce (millis t) (last b) b = b).
    { destruct since as [t0|];
        [now apply (debounce_early t t0)|now apply debounce_at_rest]. }
    rewrite E. now apply (IH b since).
  - rewrite (debounce_transition t r b Hne).
    destruct (IH (mkButton (pin b) (stable b) r (press b) (release b) (millis t))
                 (Some t) eq_refl Hcalm) as (H1 & H2 & H3).
    conjs; assumption.
Qed.

Lemma calm_prefix (pre post : list (Z * bool)) :
  forall (since : option Z) (lvl : bool),
  calm since lvl (pre ++ post) -> calm since lvl pre.
Proof.
  induction pre as [|[t r] pre IH]; intros since lvl H; [exact I|].
  cbn [app calm] in *. destruct (eqb r lvl).
  - destruct H as [H1 H2]. split; [assumption|now apply IH].
  - now apply IH.
Qed.

Lemma ascending_tail (a : Z) (l : list Z) : ascending (a :: l) -> ascending l.
Proof. destruct l as [|b l]; cbn; tauto. Qed.

Lemma ascending_skip (a b : Z) (l : list Z) :
  ascending (a :: b :: l) -> ascending (a :: l).
Proof. destruct l as [|c l]; cbn; [tauto|]. intros (? & ? & ?). split; [lia|assumption]. Qed.

Lemma ascending_lower (a : Z) (l : list Z) :
  ascending (a :: l) -> Forall (fun x => a <= x) l.
Proof.
  induction l as [|b l IH]; intros H; constructor.
  - cbn in H. tauto.
  - apply IH. now apply ascending_skip with b.
Qed.

Lemma transitions_times (P : Z -> Prop) (raws : list (Z * bool)) :
  forall lvl : bool,
  Forall P (map fst raws) -> Forall P (transitions lvl raws).
Proof.
  induction raws as [|[t r] raws IH]; intros lvl H; cbn in *; [constructor|].
  apply Forall_cons in H as [H1 H2].
  destruct (eqb r lvl); [now apply IH|constructor; [assumption|now apply IH]].
Qed.

Lemma endsInTransition_cons (lvl : bool) (t : Z) (r : bool) (raws : list (Z * bool)) :
  endsInTransition lvl ((t, r) :: raws) ->
  (raws = [] /\ r <> lvl) \/ endsInTransition r raws.
Proof.
  intros (front & t' & r' & E & Hne). destruct front as [|x front]; cbn in E.
  - injection E as -> -> <-. left. split; [reflexivity|exact Hne].
  - injection E as <- ->. right. exists front, t', r'. split; [reflexivity|exact Hne].
Qed.

Lemma endsInTransition_some (raws : list (Z * bool)) :
  forall lvl : bool, endsInTransition lvl raws -> transitions lvl raws <> [].
Proof.
  induction raws as [|[t r] raws IH]; intros lvl H.
  - destruct H as (front & t' & r' & E & _). now destruct front.
  - cbn. destruct (eqb_spec r lvl) as [->|Hne]; [|discriminate].
    apply endsInTransition_cons in H as [[_ H]|H]; [contradiction|now apply IH].
Qed.

(** Transitions less than the debounce window apart, observed up to the
    last of them, leave every reading inside a window. *)
Lemma calm_of_spacing (raws : list (Z * bool)) :
  forall (since : option Z) (lvl : bool),
  ascending (sinceList since ++ map fst raws) ->
  spacedUnder BTN_DEBOUNCE_MS (sinceList since ++ transitions lvl raws) ->
  raws = [] \/ endsInTransition lvl raws ->
  calm since lvl raws.
Proof.
  induction raws as [|[t r] raws IH]; intros since lvl Hasc Hsp Hend; [exact I|].
  destruct Hend as [Hend|Hend]; [discriminate|].
  assert (Hnext := endsInTransition_cons _ _ _ _ Hend).
  cbn [calm map fst transitions] in *.
  destruct (eqb_spec r lvl) as [->|Hne].
  - destruct Hnext as [[_ Hnext]|Hnext]; [contradiction|].
    split.
    + destruct since as [t0|]; [|exact I]. cbn [sinceList app] in *.
      assert (Hlow : Forall (fun x => t <= x) (transitions lvl raws)).
      { apply transitions_times, ascending_lower. now apply ascending_tail with t0. }
      assert (Hsome := endsInTransition_some raws lvl Hnext).
      destruct (transitions lvl raws) as [|t1 ts]; [contradiction|].
      apply Forall_cons in Hlow as [Hlow _].
      cbn in Hasc, Hsp. lia.
    + apply IH; [|assumption|now right].
      destruct since as [t0|]; cbn [sinceList app] in *;
        [now apply ascending_skip with t|now apply ascending_tail with t].
  - apply IH.
    + destruct since as [t0|]; cbn [sinceList app] in *;
        [now apply ascending_tail with t0|assumption].
    + destruct since as [t0|]; cbn [sinceList app] in *; [|assumption].
      cbn in Hsp. tauto.
    + destruct Hnext as [[-> _]|Hnext]; [now left|now right].
Qed.

(** C4. Bounces are absorbed.  Take any button at rest (its stable level is
    the raw level last read) and any sequence of ticks, at non-decreasing
    times, in which consecutive transitions of its raw level, as
    [updateButtons] reads it from one tick to the next, are less than the
    30 ms debounce window apart, observed up to the last transition.
    After every tick of the sequence the stable level reported by [isDown]
    is what it was, and so are the press and release flags: no edge is set
    and nothing is kept for later. *)
Theorem bounces_absorbed (bs : Buttons) (id : ButtonId) (ss : list Sample) :
  let raws := rawOf (pin (bs id)) ss in
  last (bs id) = stable (bs id) ->
  ascending (map fst raws) ->
  spacedUnder BTN_DEBOUNCE_MS (transitions (last (bs id)) raws) ->
  endsInTransition (last (bs id)) raws ->
  forall pre : list Sample,
  pre `prefix_of` ss ->
  isDown id (sampleButtons pre bs) = isDown id bs
  /\ press (sampleButtons pre bs id) = press (bs id)
  /\ release (sampleButtons pre bs id) = release (bs id).
Proof.
  intros raws Hrest Hasc Hsp Hend pre [post ->].
  assert (Hcalm : calm None (last (bs id)) raws)
    by (apply calm_of_spacing; [assumption..|now right]).
  unfold raws, rawOf in Hcalm. rewrite map_app in Hcalm.
  apply calm_prefix in Hcalm.
  unfold isDown. rewrite sampleButtons_feed.
  exact (feed_calm _ (bs id) None Hrest Hcalm).
Qed.

(** The scenario of the specification: the raw level flips and flips back
    within 10 ms; nothing is registered. *)
Lemma bounces_absorbed_witness :
  isDown B_PAUSE (sampleButtons shortBounce idleButtons)
  = isDown B_PAUSE idleButtons
  /\ press (sampleButtons shortBounce idleButtons B_PAUSE)
     = press (idleButtons B_PAUSE)
  /\ release (sampleButtons shortBounce idleButtons B_PAUSE)
     = release (idleButtons B_PAUSE).
Proof.
  apply (bounces_absorbed idleButtons B_PAUSE shortBounce).
  - reflexivity.
  - vm_compute. intuition congruence.
  - vm_compute. intuition congruence.
  - exists [(100, true); (105, true)], 110, false. split; [reflexivity|].
    vm_compute. discriminate.
  - reflexivity.
Defined.

(** A level held for the whole debounce window is committed, once. *)
Example held_press_commits :
  let bs := sampleButtons [(100, holding BTN_PAUSE); (130, holding BTN_PAUSE);
                           (160, holding BTN_PAUSE)] idleButtons in
  isDown B_PAUSE bs = true
  /\ fst (takePress B_PAUSE bs) = true
  /\ fst (takePress B_PAUSE (snd (takePress B_PAUSE bs))) = false.
Proof. vm_compute. conjs; reflexivity. Qed.

(** *** Edge flags *)



Lemma clearButtonEdges_facts (bs : Buttons) (id : ButtonId) :
  press (clearButtonEdges bs id) = false
  /\ release (clearButtonEdges bs id) = false
  /\ stable (clearButtonEdges bs id) = stable (bs id).
Proof. conjs; reflexivity. Qed.


End InputManager.

(** Reduce the field accesses and field updates of the world record. *)
Ltac world_fields :=
  cbn [buttons sound systemState currentGame menuIndex score highScore lastWin
       lastMsg gamePaused menuMuteComboLatched gameOverStartTime frameBuffer
       lastMatrixMs lastOledMs matrix oled gameState
       set_buttons set_sound set_systemState set_currentGame set_menuIndex
       set_score set_highScore set_lastWin set_lastMsg set_gamePaused
       set_menuMuteComboLatched set_gameOverStartTime set_frameBuffer
       set_lastMatrixMs set_lastOledMs set_matrix set_oled set_gameState
       beep fst snd] in *.

(** Compute the field updates of a world given as a record. *)
Ltac world_records :=
  cbv [set_buttons set_sound set_systemState set_currentGame set_menuIndex
       set_score set_highScore set_lastWin set_lastMsg set_gamePaused
       set_menuMuteComboLatched set_gameOverStartTime set_frameBuffer
       set_lastMatrixMs set_lastOledMs set_matrix set_oled set_gameState beep
       buttons sound systemState currentGame menuIndex score highScore lastWin
       lastMsg gamePaused menuMuteComboLatched gameOverStartTime frameBuffer
       lastMatrixMs lastOledMs matrix oled gameState].

Section SessionController.

Context {G : Type}.
Implicit Types (w : World G) (C : Collaborators G).

(** *** Reading press edges *)

Lemma set_buttons_same w : set_buttons (buttons w) w = w.
Proof. now destruct w. Qed.

Lemma pressed_none (id : ButtonId) w :
  press (buttons w id) = false -> pressed id w = (false, w).
Proof.
  intros H. unfold pressed, takePress. rewrite H. cbn [negb].
  now rewrite set_buttons_same.
Qed.

Lemma pressed_some (id : ButtonId) w :
  press (buttons w id) = true ->
  pressed id w = (true, set_buttons (snd (takePress id (buttons w))) w).
Proof. intros H. unfold pressed, takePress. rewrite H. reflexivity. Qed.

Lemma pressed_eq (id : ButtonId) w :
  pressed id w
  = (press (buttons w id), set_buttons (snd (takePress id (buttons w))) w).
Proof.
  destruct (press (buttons w id)) eqn:H.
  - now apply pressed_some.
  - rewrite (pressed_none id w H). unfold takePress. rewrite H. cbn.
    now rewrite set_buttons_same.
Qed.

(** *** [finishGame] *)

Lemma finishGame_not_playing (clk : Z) (win : bool) (message : option string) w :
  systemState w <> STATE_PLAYING -> finishGame clk win message w = w.
Proof.
  intros H. unfold finishGame.
  now rewrite (bool_decide_eq_false_2 _ H).
Qed.

Lemma finishGame_playing (clk : Z) (win : bool) (message : option string) w :
  systemState w = STATE_PLAYING ->
  let w' := finishGame clk win message w in
  systemState w' = STATE_GAME_OVER
  /\ gameOverStartTime w' = clk
  /\ lastWin w' = win
  /\ score w' = score w
  /\ gamePaused w' = gamePaused w
  /\ buttons w' = clearButtonEdges (buttons w)
  /\ highScore w'
     = if score w >? highScore w (currentGame w)
       then fun id => if decide (id = currentGame w) then score w
                      else highScore w id
       else highScore w.
Proof.
  intros H. unfold finishGame.
  rewrite (bool_decide_eq_true_2 _ H). cbn [negb].
  destruct (score w >? highScore w (currentGame w)), message, win;
    world_fields; conjs; reflexivity.
Qed.

(** C9. [finishGame] called while the session is not Playing changes
    nothing: it returns the world it was given, with the session state, the
    score, every high score, the win flag, the message and the tone queue as
    they were. *)
Theorem finishGame_outside_playing
    (clk : Z) (win : bool) (message : option string) w :
  systemState w <> STATE_PLAYING ->
  finishGame clk win message w = w.
Proof. apply finishGame_not_playing. Qed.

(** *** What the later phases of an iteration leave alone *)

Lemma drawGame_shape C (id : GameId) w :
  exists fb, drawGame C id w = set_frameBuffer fb w.
Proof. destruct id; cbn [drawGame]; unfold paint; eauto. Qed.

Lemma drawFlashingPauseBorder_shape C (now : Z) w :
  exists fb, drawFlashingPauseBorder C now w = set_frameBuffer fb w.
Proof.
  unfold drawFlashingPauseBorder.
  destruct (negb (gamePaused w)); [exists (frameBuffer w); now destruct w|].
  destruct (negb _); [exists (frameBuffer w); now destruct w|eauto].
Qed.

Lemma renderMatrix_shape C (now : Z) w :
  exists t fb m,
    renderMatrix C now w
    = set_matrix m (set_frameBuffer fb (set_lastMatrixMs t w)).
Proof.
  unfold renderMatrix. destruct (MATRIX_FRAME_MS <=? _).
  - cbv zeta. world_fields. destruct (systemState w).
    + unfold drawMenuMatrix. world_fields. eauto.
    + destruct (drawGame_shape C (currentGame w) (set_lastMatrixMs now w))
        as [fb1 ->].
      destruct (drawFlashingPauseBorder_shape C now
                  (set_frameBuffer fb1 (set_lastMatrixMs now w))) as [fb2 ->].
      world_fields. exists now, fb2. eexists. now destruct w.
    + unfold drawGameOverMatrix. world_fields. eauto.
  - exists (lastMatrixMs w), (frameBuffer w), (matrix w). now destruct w.
Qed.

Lemma renderOLED_shape (now : Z) w :
  exists t o, renderOLED now w = set_oled o (set_lastOledMs t w).
Proof.
  unfold renderOLED. destruct (OLED_FRAME_MS <=? _).
  - cbv zeta. destruct (systemState (set_lastOledMs now w)); eauto.
  - exists (lastOledMs w), (oled w). now destruct w.
Qed.

(** An iteration is its first three phases followed by writes to the
    sound globals and to the two displays. *)
Lemma loop_shape C (now : Z) (rd : Pin -> Level) (clk : Z) w :
  exists snd' t fb m t' o,
    loop C now rd clk w
    = set_oled o (set_lastOledMs t' (set_matrix m (set_frameBuffer fb
        (set_lastMatrixMs t (set_sound snd'
          (stateInput C now clk
             (globalInput (set_buttons (updateButtons now rd (buttons w)) w)))))))).
Proof.
  unfold loop. cbv zeta.
  set (w3 := stateInput C now clk _). unfold beep.
  destruct (renderMatrix_shape C now (set_sound (updateSound now (sound w3)) w3))
    as (t & fb & m & ->).
  destruct (renderOLED_shape now
              (set_matrix m (set_frameBuffer fb (set_lastMatrixMs t
                 (set_sound (updateSound now (sound w3)) w3)))))
    as (t' & o & ->).
  eauto 10.
Qed.

(** *** The menu branch *)

Lemma menuMuteCombo_shape w :
  exists l bs s,
    menuMuteCombo w = set_menuMuteComboLatched l (set_buttons bs (set_sound s w))
    /\ (bs = buttons w \/ bs = clearButtonEdges (buttons w)).
Proof.
  unfold menuMuteCombo. cbv zeta.
  destruct (isDown B_LEFT (buttons w) && isDown B_RIGHT (buttons w));
    cbn [negb andb].
  - destruct (negb (menuMuteComboLatched w)).
    + set (s1 := setSoundMuted (negb (soundMuted (sound w))) (sound w)).
      exists true, (clearButtonEdges (buttons w)),
        (if negb (soundMuted s1) then beepButton s1 else s1).
      split; [|now right].
      destruct w; world_fields. subst s1. world_fields.
      now destruct (negb (soundMuted _)).
    + exists (menuMuteComboLatched w), (buttons w), (sound w).
      split; [now destruct w|now left].
  - exists false, (buttons w), (sound w). split; [now destruct w|now left].
Qed.




(** *** The game-over branch *)








(** *** The playing branch *)


(** The update functions that handle the pause flag, in one equation. *)
Lemma updateGame_pausable C (id : GameId) (now : Z) w :
  pausable id = true ->
  updateGame C id now w
  = if gamePaused (pauseInput w) then pauseInput w
    else if press (buttons w B_PAUSE) && returnsAfterToggle id then pauseInput w
    else play C (moduleOf id) now (pauseInput w).
Proof.
  intros Hp.
  destruct id; try discriminate Hp;
    cbn [updateGame returnsAfterToggle moduleOf];
    unfold snakeUpdate, dinoUpdate, pacEasyUpdate, pacmanUpdate,
      breakoutUpdate, pongUpdate, pauseInput;
    rewrite pressed_eq;
    destruct (press (buttons w B_PAUSE)) eqn:Hpress; cbn [andb];
    try reflexivity;
    try (destruct (gamePaused (togglePause _)); reflexivity).
Qed.

Lemma updateGame_plain C (id : GameId) (now : Z) w :
  pausable id = false ->
  updateGame C id now w = play C (moduleOf id) now w.
Proof. intros Hp. destruct id; try discriminate Hp; reflexivity. Qed.



(** *** The score board *)

Lemma finishGame_highScore (clk : Z) (win : bool) (message : option string) w
    (id : GameId) :
  highScore (finishGame clk win message w) id
  = if bool_decide (systemState w = STATE_PLAYING /\ id = currentGame w
                    /\ highScore w id < score w)
    then score w else highScore w id.
Proof.
  destruct (decide (systemState w = STATE_PLAYING)) as [Hst|Hst].
  - destruct (finishGame_playing clk win message w Hst) as (_&_&_&_&_&_&->).
    destruct (Z.gtb_spec (score w) (highScore w (currentGame w))) as [Hgt|Hle].
    + destruct (decide (id = currentGame w)) as [->|Hne].
      * rewrite bool_decide_eq_true_2; [reflexivity|]. conjs; [done..|lia].
      * rewrite bool_decide_eq_false_2; [reflexivity|]. tauto.
    + rewrite bool_decide_eq_false_2; [reflexivity|].
      intros (_ & -> & Hlt). lia.
  - rewrite finishGame_not_playing by assumption.
    rewrite bool_decide_eq_false_2; [reflexivity|]. tauto.
Qed.

Lemma finishGame_highScore_le (clk : Z) (win : bool) (message : option string)
    w (id : GameId) :
  highScore w id <= highScore (finishGame clk win message w) id.
Proof. rewrite finishGame_highScore. case_bool_decide; lia. Qed.

Lemma runCalls_highScore (cs : list (ModuleCall G)) (id : GameId) :
  forall w, highScore w id <= highScore (runCalls cs w) id.
Proof.
  unfold runCalls.
  induction cs as [|c cs IH]; intros w; [cbn; lia|].
  cbn [fold_left]. etransitivity; [|apply IH].
  destruct c as [b|f d|v|g|clk win message]; cbn [moduleCall].
  - rewrite pressed_eq. cbn. lia.
  - cbn. lia.
  - cbn. lia.
  - cbn. lia.
  - apply finishGame_highScore_le.
Qed.

Lemma pauseInput_highScore w : highScore (pauseInput w) = highScore w.
Proof.
  unfold pauseInput, togglePause. rewrite pressed_eq.
  now destruct (press (buttons w B_PAUSE)).
Qed.

Lemma updateGame_highScore C (g : GameId) (now : Z) w (id : GameId) :
  highScore w id <= highScore (updateGame C g now w) id.
Proof.
  destruct (pausable g) eqn:Hp.
  - rewrite (updateGame_pausable C g now w Hp).
    repeat match goal with |- context [if ?c then _ else _] => destruct c end;
      try (rewrite pauseInput_highScore; lia).
    etransitivity; [|apply runCalls_highScore].
    rewrite pauseInput_highScore. lia.
  - rewrite (updateGame_plain C g now w Hp). apply runCalls_highScore.
Qed.

Lemma startGame_facts C (g : GameId) (clk : Z) w :
  let w' := startGame C g clk w in
  score w' = 0
  /\ highScore w' = highScore w
  /\ systemState w' = STATE_PLAYING
  /\ currentGame w' = g
  /\ gamePaused w' = false
  /\ buttons w' = clearButtonEdges (buttons w).
Proof. unfold startGame, initGame. destruct g; cbn; conjs; reflexivity. Qed.

Lemma startGame_highScore C (g : GameId) (clk : Z) w :
  highScore (startGame C g clk w) = highScore w.
Proof. now destruct (startGame_facts C g clk w) as (_ & -> & _). Qed.

Lemma menuInput_highScore C (clk : Z) w :
  highScore (menuInput C clk w) = highScore w.
Proof.
  unfold menuInput. cbv zeta.
  destruct (menuMuteCombo_shape w) as (l & bs & s & -> & _).
  rewrite pressed_eq; cbv beta iota.
  match goal with |- context [if ?c then _ else _] => destruct c end;
    (rewrite pressed_eq; cbv beta iota;
     match goal with |- context [if ?c then _ else _] => destruct c end;
     (rewrite pressed_eq; cbv beta iota;
      match goal with |- context [if ?c then _ else _] => destruct c end;
      rewrite ?startGame_highScore; reflexivity)).
Qed.

Lemma gameOverInput_highScore (now : Z) w :
  highScore (gameOverInput now w) = highScore w.
Proof.
  unfold gameOverInput. cbv zeta.
  destruct (_ <=? _); [reflexivity|].
  rewrite pressed_eq; cbv beta iota.
  destruct (press (buttons w B_PAUSE)); [reflexivity|].
  rewrite pressed_eq; cbv beta iota.
  match goal with |- context [if ?c then _ else _] => destruct c end;
    reflexivity.
Qed.

Lemma globalInput_highScore w : highScore (globalInput w) = highScore w.
Proof.
  unfold globalInput. rewrite pressed_eq; cbv beta iota.
  match goal with |- context [if ?c then _ else _] => destruct c end;
    reflexivity.
Qed.

Lemma loop_highScore C (now : Z) (rd : Pin -> Level) (clk : Z) w (id : GameId) :
  highScore w id <= highScore (loop C now rd clk w) id.
Proof.
  destruct (loop_shape C now rd clk w) as (s' & t & fb & m & t' & o & ->).
  world_fields.
  set (w1 := set_buttons _ w).
  assert (H1 : highScore (globalInput w1) = highScore w)
    by now rewrite globalInput_highScore.
  rewrite <- H1. unfold stateInput.
  destruct (systemState (globalInput w1)).
  - rewrite menuInput_highScore. lia.
  - apply updateGame_highScore.
  - rewrite gameOverInput_highScore. lia.
Qed.

Lemma runTicks_highScore C (ks : list Tick) (id : GameId) :
  forall w, highScore w id <= highScore (runTicks C ks w) id.
Proof.
  induction ks as [|k ks IH]; intros w; [cbn; lia|].
  cbn [runTicks]. etransitivity; [|apply IH]. apply loop_highScore.
Qed.

(** C8. The high score of every game never decreases.  [finishGame]
    replaces the entry of the current game by the score exactly when the
    round is being played and the score is strictly greater, and leaves all
    other entries alone; [startGame] sets the score to 0 and does not touch
    the high scores; and over any number of loop iterations, whatever the
    game modules do, no entry ever gets smaller. *)
Theorem high_score_monotone C :
  (forall (clk : Z) (win : bool) (message : option string) w (id : GameId),
     highScore (finishGame clk win message w) id
     = if bool_decide (systemState w = STATE_PLAYING /\ id = currentGame w
                       /\ highScore w id < score w)
       then score w else highScore w id)
  /\ (forall (g : GameId) (clk : Z) w,
       score (startGame C g clk w) = 0
       /\ highScore (startGame C g clk w) = highScore w)
  /\ (forall (ks : list Tick) w (id : GameId),
       highScore w id <= highScore (runTicks C ks w) id).
Proof.
  conjs.
  - intros. apply finishGame_highScore.
  - intros g clk w. destruct (startGame_facts C g clk w) as (H1 & H2 & _).
    now split.
  - intros. apply runTicks_highScore.
Qed.

(** *** Edge flags across state transitions *)


(** *** The menu cursor *)

Lemma finishGame_menuIndex (clk : Z) (win : bool) (message : option string) w :
  menuIndex (finishGame clk win message w) = menuIndex w.
Proof.
  unfold finishGame. destruct (negb _); [reflexivity|].
  now destruct (score w >? _), message, win.
Qed.

Lemma runCalls_menuIndex (cs : list (ModuleCall G)) :
  forall w, menuIndex (runCalls cs w) = menuIndex w.
Proof.
  unfold runCalls. induction cs as [|c cs IH]; intros w; [reflexivity|].
  cbn [fold_left]. rewrite IH.
  destruct c as [id|f d|v|g|clk win message]; cbn [moduleCall];
    try reflexivity; [now rewrite pressed_eq|apply finishGame_menuIndex].
Qed.

Lemma updateGame_menuIndex C (g : GameId) (now : Z) w :
  menuIndex (updateGame C g now w) = menuIndex w.
Proof.
  assert (Hp : menuIndex (pauseInput w) = menuIndex w).
  { unfold pauseInput, togglePause. rewrite pressed_eq.
    now destruct (press (buttons w B_PAUSE)). }
  destruct (pausable g) eqn:Hg.
  - rewrite (updateGame_pausable C g now w Hg).
    repeat match goal with |- context [if ?c then _ else _] => destruct c end;
      try exact Hp.
    unfold play. now rewrite runCalls_menuIndex.
  - rewrite (updateGame_plain C g now w Hg). apply runCalls_menuIndex.
Qed.

(** The cursor stays on one of the [GAME_COUNT] entries, so that the cast
    to [GameId] always names a game. *)
Lemma loop_menuIndex C (now : Z) (rd : Pin -> Level) (clk : Z) w :
  0 <= menuIndex w < GAME_COUNT ->
  0 <= menuIndex (loop C now rd clk w) < GAME_COUNT.
Proof.
  intros Hm.
  destruct (loop_shape C now rd clk w) as (s' & t & fb & m & t' & o & ->).
  world_fields.
  set (w1 := set_buttons _ w).
  assert (H1 : menuIndex (globalInput w1) = menuIndex w).
  { unfold globalInput. rewrite pressed_eq; cbv beta iota.
    now match goal with |- context [if ?c then _ else _] => destruct c end. }
  rewrite <- H1 in Hm. unfold stateInput.
  destruct (systemState (globalInput w1)).
  - generalize dependent (globalInput w1). clear. intros v Hm.
    unfold menuInput. cbv zeta.
    destruct (menuMuteCombo_shape v) as (l & bs & s & -> & _).
    unfold GAME_COUNT in *.
    rewrite pressed_eq; cbv beta iota.
    match goal with |- context [if ?c then _ else _] => destruct c end;
      (rewrite pressed_eq; cbv beta iota;
       match goal with |- context [if ?c then _ else _] => destruct c end;
       (rewrite pressed_eq; cbv beta iota;
        match goal with |- context [if ?c then _ else _] => destruct c end;
        [ match goal with |- context [startGame C ?g clk ?v'] =>
            replace (menuIndex (startGame C g clk v')) with (menuIndex v')
              by (unfold startGame, initGame; now destruct g)
          end | ];
        world_fields; lia)).
  - now rewrite updateGame_menuIndex.
  - unfold gameOverInput. cbv zeta.
    destruct (_ <=? _); [exact Hm|].
    rewrite pressed_eq; cbv beta iota.
    destruct (press _); [exact Hm|].
    rewrite pressed_eq; cbv beta iota.
    now match goal with |- context [if ?c then _ else _] => destruct c end.
Qed.

(** *** The sequencer inside the console *)

Lemma runSound_app (ops ops' : list SoundOp) (s : Sound) :
  runSound (ops ++ ops') s = runSound ops' (runSound ops s).
Proof. revert s; induction ops as [|op ops IH]; intros s; cbn; auto. Qed.

Lemma via_same w w' : sound w' = sound w -> viaSoundCalls w w'.
Proof. intros E. now exists []. Qed.

Lemma via_trans w1 w2 w3 :
  viaSoundCalls w1 w2 -> viaSoundCalls w2 w3 -> viaSoundCalls w1 w3.
Proof.
  intros [ops1 E1] [ops2 E2]. exists (ops1 ++ ops2).
  now rewrite runSound_app, <- E1.
Qed.

Lemma via_ops (ops : list SoundOp) w w' :
  sound w' = runSound ops (sound w) -> viaSoundCalls w w'.
Proof. intros E. now exists ops. Qed.

Lemma via_beepButton w : viaSoundCalls w (beep beepButton w).
Proof. now apply (via_ops [OpEnqueue 1200 26]). Qed.

Lemma via_pressed (id : ButtonId) w : viaSoundCalls w (snd (pressed id w)).
Proof. apply via_same. now rewrite pressed_eq. Qed.

Lemma via_finishGame (clk : Z) (win : bool) (message : option string) w :
  viaSoundCalls w (finishGame clk win message w).
Proof.
  unfold finishGame. destruct (negb _); [now apply via_same|].
  destruct (score w >? _), message, win;
    first [ now apply (via_ops [OpEnqueue 800 50; OpEnqueue 1050 50;
                                OpEnqueue 1400 80])
          | now apply (via_ops [OpEnqueue 1000 60; OpEnqueue 700 70;
                                OpEnqueue 430 90]) ].
Qed.

Lemma via_runCalls (cs : list (ModuleCall G)) :
  forall w, viaSoundCalls w (runCalls cs w).
Proof.
  unfold runCalls. induction cs as [|c cs IH]; intros w; [now apply via_same|].
  cbn [fold_left]. eapply via_trans; [|apply IH].
  destruct c as [id|f d|v|g|clk win message]; cbn [moduleCall].
  - apply via_pressed.
  - now apply (via_ops [OpEnqueue f d]).
  - now apply via_same.
  - now apply via_same.
  - apply via_finishGame.
Qed.

Lemma via_pauseInput w : viaSoundCalls w (pauseInput w).
Proof.
  unfold pauseInput, togglePause. rewrite pressed_eq.
  destruct (press (buttons w B_PAUSE));
    [now apply (via_ops [OpEnqueue 1200 26])|now apply via_same].
Qed.

Lemma via_updateGame C (g : GameId) (now : Z) w :
  viaSoundCalls w (updateGame C g now w).
Proof.
  destruct (pausable g) eqn:Hp.
  - rewrite (updateGame_pausable C g now w Hp).
    repeat match goal with |- context [if ?c then _ else _] => destruct c end;
      try apply via_pauseInput.
    eapply via_trans; [apply via_pauseInput|apply via_runCalls].
  - rewrite (updateGame_plain C g now w Hp). apply via_runCalls.
Qed.

Lemma via_startGame C (g : GameId) (clk : Z) w :
  viaSoundCalls w (startGame C g clk w).
Proof.
  apply (via_ops [OpEnqueue 500 45; OpEnqueue 850 45; OpEnqueue 1200 65]).
  unfold startGame, initGame. now destruct g.
Qed.

Lemma via_menuMuteCombo w : viaSoundCalls w (menuMuteCombo w).
Proof.
  unfold menuMuteCombo. cbv zeta.
  destruct (isDown B_LEFT (buttons w) && isDown B_RIGHT (buttons w));
    cbn [negb andb]; [|now apply via_same].
  destruct (negb (menuMuteComboLatched w)); [|now apply via_same].
  set (m := negb (soundMuted (sound w))).
  destruct (negb (soundMuted (sound (beep (setSoundMuted m) w)))).
  - now apply (via_ops [OpMute m; OpEnqueue 1200 26]).
  - now apply (via_ops [OpMute m]).
Qed.

Lemma via_menuInput C (clk : Z) w : viaSoundCalls w (menuInput C clk w).
Proof.
  unfold menuInput. cbv zeta.
  eapply via_trans; [apply via_menuMuteCombo|].
  generalize (menuMuteCombo w). clear w. intros w.
  (* UP *)
  rewrite pressed_eq; cbv beta iota.
  match goal with |- viaSoundCalls _ (let '(_, _) := pressed _ ?v in _) =>
    set (w1 := v); assert (H1 : viaSoundCalls w w1) end.
  { subst w1. destruct (press (buttons w B_UP));
      [now apply (via_ops [OpEnqueue 1200 26])|now apply via_same]. }
  eapply via_trans; [exact H1|]. clearbody w1. clear H1 w.
  (* DOWN *)
  rewrite pressed_eq; cbv beta iota.
  match goal with |- viaSoundCalls _ (let '(_, _) := pressed _ ?v in _) =>
    set (w2 := v); assert (H2 : viaSoundCalls w1 w2) end.
  { subst w2. destruct (press (buttons w1 B_DOWN));
      [now apply (via_ops [OpEnqueue 1200 26])|now apply via_same]. }
  eapply via_trans; [exact H2|]. clearbody w2. clear H2 w1.
  (* PAUSE *)
  rewrite pressed_eq; cbv beta iota.
  destruct (press (buttons w2 B_PAUSE)); [|now apply via_same].
  eapply via_trans; [|apply via_startGame].
  now apply (via_ops [OpEnqueue 1200 26]).
Qed.

Lemma via_gameOverInput (now : Z) w : viaSoundCalls w (gameOverInput now w).
Proof.
  unfold gameOverInput. cbv zeta.
  destruct (_ <=? _); [now apply (via_ops [OpEnqueue 1200 26])|].
  rewrite pressed_eq; cbv beta iota.
  destruct (press (buttons w B_PAUSE));
    [now apply (via_ops [OpEnqueue 1200 26])|].
  rewrite pressed_eq; cbv beta iota.
  match goal with |- context [if ?c then _ else _] => destruct c end;
    [now apply (via_ops [OpEnqueue 1200 26])|now apply via_same].
Qed.

Lemma via_globalInput w : viaSoundCalls w (globalInput w).
Proof.
  unfold globalInput. rewrite pressed_eq; cbv beta iota.
  match goal with |- context [if ?c then _ else _] => destruct c end;
    [now apply (via_ops [OpEnqueue 1200 26])|now apply via_same].
Qed.

Lemma loop_sound C (now : Z) (rd : Pin -> Level) (clk : Z) w :
  sound (loop C now rd clk w)
  = updateSound now
      (sound (stateInput C now clk
                (globalInput (set_buttons (updateButtons now rd (buttons w)) w)))).
Proof.
  unfold loop. cbv zeta.
  set (w3 := stateInput C now clk _).
  destruct (renderMatrix_shape C now (beep (updateSound now) w3))
    as (t & fb & m & ->).
  destruct (renderOLED_shape now
              (set_matrix m (set_frameBuffer fb (set_lastMatrixMs t
                 (beep (updateSound now) w3)))))
    as (t' & o & ->).
  reflexivity.
Qed.

(** Whatever happens in an iteration, the sound globals change through the
    three entry points of the sequencer and in no other way. *)
Lemma via_loop C (now : Z) (rd : Pin -> Level) (clk : Z) w :
  viaSoundCalls w (loop C now rd clk w).
Proof.
  set (w1 := set_buttons (updateButtons now rd (buttons w)) w).
  assert (H3 : viaSoundCalls w (stateInput C now clk (globalInput w1))).
  { eapply via_trans; [apply (via_same w w1); reflexivity|].
    eapply via_trans; [apply via_globalInput|].
    unfold stateInput. destruct (systemState (globalInput w1)).
    - apply via_menuInput.
    - apply via_updateGame.
    - apply via_gameOverInput. }
  destruct H3 as [ops E]. exists (ops ++ [OpUpdate now]).
  rewrite loop_sound. fold w1. now rewrite E, runSound_app.
Qed.

Lemma via_runTicks C (ks : list Tick) :
  forall w, viaSoundCalls w (runTicks C ks w).
Proof.
  induction ks as [|k ks IH]; intros w; [now apply via_same|].
  cbn [runTicks]. eapply via_trans; [apply via_loop|apply IH].
Qed.

(** The sequencer of the running console is always well formed: what is
    proved of the sequencer holds of the console, from boot on. *)
Lemma runTicks_soundOk C (ks : list Tick) w :
  SoundOk (sound w) -> SoundOk (sound (runTicks C ks w)).
Proof.
  intros Hok. destruct (via_runTicks C ks w) as [ops ->].
  now destruct (runSound_facts ops (sound w) Hok) as (_ & _ & _ & H & _).
Qed.

End SessionController.

Section FirstSketchAgrees.

Context {G : Type}.

(** While the sound is not muted the tone queue of the first sketch is the
    tone queue of the current one. *)
Lemma first_sketch_enqueueTone (f d : Z) (s : Sound) :
  soundMuted s = false -> FirstSketch.enqueueTone f d s = enqueueTone f d s.
Proof. intros Hm. unfold FirstSketch.enqueueTone, enqueueTone. now rewrite Hm. Qed.

Lemma first_sketch_updateSound (now : Z) (s : Sound) :
  soundMuted s = false -> FirstSketch.updateSound now s = updateSound now s.
Proof. intros Hm. unfold FirstSketch.updateSound, updateSound. now rewrite Hm. Qed.

Lemma enqueueTone_soundMuted (f d : Z) (s : Sound) :
  soundMuted (enqueueTone f d s) = soundMuted s.
Proof.
  unfold enqueueTone. destruct (soundMuted s) eqn:Hm; [assumption|].
  cbv zeta. now destruct (_ =? _)%nat.
Qed.

Lemma first_sketch_beeps (s : Sound) :
  soundMuted s = false ->
  FirstSketch.beepWin s = beepWin s /\ FirstSketch.beepLose s = beepLose s.
Proof.
  intros Hm. unfold FirstSketch.beepWin, FirstSketch.beepLose, beepWin, beepLose.
  assert (E : forall f d s', soundMuted s' = false ->
            FirstSketch.enqueueTone f d s' = enqueueTone f d s'
            /\ soundMuted (enqueueTone f d s') = false).
  { intros f d s' Hs. split; [now apply first_sketch_enqueueTone|].
    now rewrite enqueueTone_soundMuted. }
  destruct (E 800 50 s Hm) as [-> H1], (E 1050 50 _ H1) as [-> H2],
    (E 1400 80 _ H2) as [-> _].
  destruct (E 1000 60 s Hm) as [-> H3], (E 700 70 _ H3) as [-> H4],
    (E 430 90 _ H4) as [-> _].
  split; reflexivity.
Qed.

(** The round end of the first sketch is the current one without the
    game-over timer. *)
Lemma first_sketch_finish (clk : Z) (win : bool) (msg : option string)
    (w : World G) :
  soundMuted (sound w) = false ->
  FirstSketch.finish win msg w
  = set_gameOverStartTime (gameOverStartTime w) (finishGame clk win msg w).
Proof.
  intros Hm. unfold FirstSketch.finish, finishGame.
  destruct w as [bs s st cg mi sc hs lw lm gp ml gt fb t1 t2 mx ol g].
  world_fields. destruct (first_sketch_beeps s Hm) as [Hw Hl].
  destruct (negb (bool_decide (st = STATE_PLAYING))); [reflexivity|].
  destruct (sc >? hs cg), msg, win;
    world_records; rewrite ?Hw, ?Hl; reflexivity.
Qed.

End FirstSketchAgrees.

Section TugOfWarRuns.

(** The console booted, Tug of War picked in the menu and played to its
    end by the second player. *)
Example menu_wraps_upwards :
  menuIndex (runTicks (tugOnly 0) (click BTN_UP 100) bootTug) = 17.
Proof. vm_compute. reflexivity. Qed.

Example tug_started :
  systemState tugPlaying = STATE_PLAYING
  /\ currentGame tugPlaying = GAME_TUG
  /\ score tugPlaying = 0
  /\ gameState tugPlaying = mkTug 4 630 630.
Proof. vm_compute. conjs; reflexivity. Qed.

Example tug_finished :
  systemState tugOver = STATE_GAME_OVER
  /\ gameOverStartTime tugOver = 1030
  /\ score tugOver = 3
  /\ highScore tugOver GAME_TUG = 3
  /\ lastWin tugOver = true
  /\ lastMsg tugOver = "P2 wins"
  /\ pending (sound tugOver) = [mkTone 800 50; mkTone 1050 50; mkTone 1400 80].
Proof. vm_compute. conjs; reflexivity. Qed.

(** PAUSE stays held after the last pull: the session leaves the game-over
    state by itself, 2000 ms after the round ended and not one
    millisecond earlier. *)
Example game_over_times_out :
  let held t := mkTick t (holding BTN_PAUSE) t in
  systemState (runTicks (tugOnly 0) [held 1100; held 2000; held 3029] tugOver)
  = STATE_GAME_OVER
  /\ systemState
       (runTicks (tugOnly 0) [held 1100; held 2000; held 3029; held 3030] tugOver)
     = STATE_MENU.
Proof. vm_compute. split; reflexivity. Qed.

(** PAUSE is let go and SELECT, or PAUSE again, is pressed 470 ms after the
    round ended: the session is back in the menu as soon as the press is
    debounced. *)
Example game_over_cancelled :
  systemState
    (runTicks (tugOnly 0)
       (settle allHigh 1100 ++ [mkTick 1500 (holding GAME_SELECTOR_BTN) 1500])
       tugOver) = STATE_GAME_OVER
  /\ systemState
       (runTicks (tugOnly 0)
          (settle allHigh 1100 ++ settle (holding GAME_SELECTOR_BTN) 1500)
          tugOver) = STATE_MENU
  /\ systemState
       (runTicks (tugOnly 0)
          (settle allHigh 1100 ++ settle (holding BTN_PAUSE) 1500)
          tugOver) = STATE_MENU.
Proof. vm_compute. conjs; reflexivity. Qed.




(** [finishGame] in the menu, right after boot. *)
Lemma finishGame_outside_playing_witness :
  finishGame 0 true None bootTug = bootTug.
Proof.
  apply (finishGame_outside_playing 0 true None bootTug).
  vm_compute. discriminate.
Defined.

(** The scenario of the specification: a lost round ends with score 50
    while the stored high score is 30. *)
Example finish_raises_high_score :
  let w := set_highScore (fun id => if decide (id = GAME_TUG) then 30 else 0)
             (set_score 50 tugPlaying) in
  let w' := finishGame 900 false None w in
  highScore w' GAME_TUG = 50
  /\ highScore w' GAME_PONG = 0
  /\ systemState w' = STATE_GAME_OVER
  /\ lastMsg w' = "Game over".
Proof. vm_compute. conjs; reflexivity. Qed.

End TugOfWarRuns.

Section FrameSurface.

Lemma forUpTo_S {A : Type} (n : nat) (body : nat -> A -> A) (a : A) :
  forUpTo (S n) body a = body n (forUpTo n body a).
Proof. unfold forUpTo. now rewrite seq_S, fold_left_app. Qed.

(** A loop that stores [f i] in slot [i] for every [i] below [n]. *)
Lemma forUpTo_store (f : nat -> Z) (n : nat) (l : list Z) :
  let l' := forUpTo n (fun i l => <[i := f i]> l) l in
  length l' = length l
  /\ forall i, (i < length l)%nat ->
       l' !! i = if decide (i < n)%nat then Some (f i) else l !! i.
Proof.
  induction n as [|n [IHlen IH]]; cbv zeta.
  - split; [reflexivity|]. intros i Hi. reflexivity.
  - rewrite forUpTo_S. split; [now rewrite length_insert|].
    intros i Hi. destruct (decide (i = n)) as [->|Hne].
    + rewrite list_lookup_insert_eq by lia. now rewrite decide_True by lia.
    + rewrite list_lookup_insert_ne by congruence. rewrite (IH i Hi).
      destruct (decide (i < n)%nat), (decide (i < S n)%nat);
        try reflexivity; lia.
Qed.

Lemma ledIndex_serpentine (x y : Z) :
  0 <= x < MATRIX_W -> 0 <= y < MATRIX_H ->
  ledIndex x y
  = if Z.even y then y * MATRIX_W + x else y * MATRIX_W + (MATRIX_W - 1 - x).
Proof.
  unfold ledIndex, u8, MATRIX_W, MATRIX_H. intros Hx Hy.
  rewrite Zeven_mod.
  destruct (y mod 2 =? 0); lia.
Qed.

(** C7. Inside the 8 by 8 grid the LED index of (x, y) is serpentine:
    y*W + x on even rows, y*W + (W-1-x) on odd rows.  It is the index the
    frame path uses: a pixel written with [setPixel] is, after [showFrame],
    the colour of the LED with that index, and all other LEDs show what the
    frame buffer held for them. *)
Theorem serpentine_mapping (x y : Z) :
  0 <= x < MATRIX_W ->
  0 <= y < MATRIX_H ->
  let index :=
    if Z.even y then y * MATRIX_W + x else y * MATRIX_W + (MATRIX_W - 1 - x) in
  ledIndex x y = index
  /\ 0 <= index < Z.of_nat MATRIX_COUNT
  /\ forall (color : Z) (fb : list Z) (m : NeoPixel),
       length fb = MATRIX_COUNT ->
       length (staged m) = MATRIX_COUNT ->
       let leds := lit (showFrame (setPixel x y color fb) m) in
       leds !! Z.to_nat index = Some color
       /\ forall i, (i < MATRIX_COUNT)%nat -> i <> Z.to_nat index ->
            leds !! i = fb !! i.
Proof.
  intros Hx Hy index.
  assert (Hidx : ledIndex x y = index) by now apply ledIndex_serpentine.
  assert (Hrange : 0 <= index < Z.of_nat MATRIX_COUNT).
  { subst index. unfold MATRIX_W, MATRIX_H, MATRIX_COUNT in *.
    destruct (Z.even y); lia. }
  split; [assumption|split; [assumption|]].
  intros color fb m Hfb Hm leds.
  assert (Hset : setPixel x y color fb = <[Z.to_nat index := color]> fb).
  { unfold setPixel.
    destruct (Z.ltb_spec x 0); [lia|]. destruct (Z.leb_spec MATRIX_W x); [lia|].
    destruct (Z.ltb_spec y 0); [lia|]. destruct (Z.leb_spec MATRIX_H y); [lia|].
    cbn [orb].
    replace (u8 x) with x by (unfold u8, MATRIX_W in *; lia).
    replace (u8 y) with y by (unfold u8, MATRIX_H in *; lia).
    now rewrite Hidx. }
  subst leds. unfold showFrame. cbn [lit]. rewrite Hset.
  destruct (forUpTo_store (fun i => <[Z.to_nat index := color]> fb !!! i)
              MATRIX_COUNT (staged m)) as [_ Hcopy].
  cbv zeta in Hcopy.
  assert (Hlook : forall i, (i < MATRIX_COUNT)%nat ->
            forUpTo MATRIX_COUNT
              (fun i st => <[i := <[Z.to_nat index := color]> fb !!! i]> st)
              (staged m) !! i
            = <[Z.to_nat index := color]> fb !! i).
  { intros i Hi. rewrite Hcopy by lia. rewrite decide_True by assumption.
    symmetry. apply list_lookup_lookup_total_lt. rewrite length_insert. lia. }
  split.
  - rewrite Hlook by lia. apply list_lookup_insert_eq. lia.
  - intros i Hi Hne. rewrite Hlook by assumption.
    now apply list_lookup_insert_ne.
Qed.

(** Row 1 runs right to left: (3, 1) is LED 12. *)
Lemma serpentine_mapping_witness :
  ledIndex 3 1 = 12
  /\ 0 <= 12 < Z.of_nat MATRIX_COUNT
  /\ forall (color : Z) (fb : list Z) (m : NeoPixel),
       length fb = MATRIX_COUNT ->
       length (staged m) = MATRIX_COUNT ->
       let leds := lit (showFrame (setPixel 3 1 color fb) m) in
       leds !! Z.to_nat 12 = Some color
       /\ forall i, (i < MATRIX_COUNT)%nat -> i <> Z.to_nat 12 ->
            leds !! i = fb !! i.
Proof.
  apply (serpentine_mapping 3 1); unfold MATRIX_W, MATRIX_H; lia.
Defined.

Example serpentine_rows :
  map (fun x => ledIndex x 0) [0; 1; 7] = [0; 1; 7]
  /\ map (fun x => ledIndex x 1) [0; 1; 7] = [15; 14; 8]
  /\ map (fun x => ledIndex x 2) [0; 1; 7] = [16; 17; 23]
  /\ map (fun x => ledIndex x 7) [0; 1; 7] = [63; 62; 56].
Proof. vm_compute. conjs; reflexivity. Qed.

End FrameSurface.
